(** * StageLinq: beat-info service, device registry and connection orchestrator

    A shallow embedding of three source files of the StageLinq client
    library and the properties of its specification that concern them:

    - [src/services/BeatInfo.ts]   (module [BeatInfo])
    - the [Devices] registry       (module [Devices])
    - [src/network/StageLinqDevices.ts] (module [StageLinqDevices])

    JavaScript values are modelled as the code uses them: a [number] that
    carries a beat is an IEEE-754 binary64 value ([spec_float] with
    precision 53 and maximal exponent 1024, arithmetic rounded to nearest
    even); a [Map] is a [gmap]; [null]/[undefined] is [None]; an exception
    is the [Throw] completion. *)

From Stdlib Require Import ZArith NArith List Ascii String Strings.Byte Lia SpecFloat.
From stdpp Require Import base option list gmap strings pretty.
Import ListNotations.

Local Open Scope Z_scope.

(** ** JavaScript completions *)

Module JS.

Inductive Exn : Type :=
| AssertionError
| TypeError
| Error (msg : string).

(** The outcome of running a piece of code: a normal return or a thrown
    exception. *)
Inductive completion (A : Type) : Type :=
| Return (a : A)
| Throw (e : Exn).

Arguments Return {A} a.
Arguments Throw {A} e.

Definition bind {A B} (k : A -> completion B) (c : completion A) : completion B :=
  match c with
  | Return a => k a
  | Throw e => Throw e
  end.

Definition assert (b : bool) : completion unit :=
  if b then Return tt else Throw AssertionError.

Definition isThrow {A} (c : completion A) : bool :=
  match c with
  | Throw _ => true
  | Return _ => false
  end.

End JS.

(** Sequencing, written [x ← c; k]: an exception of [c] skips [k]. *)
#[global] Instance completion_bind : MBind JS.completion := @JS.bind.
#[global] Instance completion_ret : MRet JS.completion := @JS.Return.

(** ** JavaScript numbers (IEEE-754 binary64) *)

Module Number.

Definition number : Type := spec_float.

Definition prec : Z := 53.
Definition emax : Z := 1024.

Definition of_Z (z : Z) : number := binary_normalize prec emax z 0 false.

Definition div (x y : number) : number := SFdiv prec emax x y.
Definition sub (x y : number) : number := SFsub prec emax x y.

(** [x >= y]; false as soon as one side is NaN. *)
Definition geb (x y : number) : bool := SFleb y x.

(** [Math.floor]: NaN, the infinities and the zeros are returned as they
    are; a finite [(-1)^s * m * 2^e] is rounded towards minus infinity. *)
Definition floor (x : number) : number :=
  match x with
  | S754_finite s m e =>
      if 0 <=? e then x
      else
        let q := Z.shiftr (Zpos m) (- e) in
        let exact := Z.shiftl q (- e) =? Zpos m in
        if s then binary_normalize prec emax (- (if exact then q else q + 1)) 0 true
        else binary_normalize prec emax q 0 false
  | _ => x
  end.

(** The value denoted by a 64-bit pattern: 1 sign bit, 11 exponent bits,
    52 fraction bits. *)
Definition of_bits (w : Z) : number :=
  let s := Z.testbit w 63 in
  let e := Z.land (Z.shiftr w 52) 2047 in
  let m := Z.land w (Z.ones 52) in
  if e =? 2047 then (if m =? 0 then S754_infinity s else S754_nan)
  else if e =? 0 then
    match m with
    | Zpos p => S754_finite s p (-1074)
    | _ => S754_zero s
    end
  else S754_finite s (Z.to_pos (m + 2 ^ 52)) (e - 1075).

End Number.

(** ** Read cursor *)

Module ReadContext.

(** Modelled from the spec: the class [ReadContext] of
    [src/utils/ReadContext] is not among the sources.  Section 4.1 of the
    specification: a read cursor wraps an immutable byte buffer and an
    advancing offset; [readUInt32], [readUInt64] and [readFloat64] are
    fixed-width big-endian reads that advance the offset by the width of
    the field; [sizeLeft] is the number of unread bytes; [isEOF] is
    [offset == length]; a read past the end fails fast. *)
Record t : Type := mk { buffer : list byte; pos : nat }.

Definition sizeLeft (ctx : t) : Z :=
  Z.of_nat (length (buffer ctx)) - Z.of_nat (pos ctx).

Definition isEOF (ctx : t) : bool :=
  Nat.eqb (pos ctx) (length (buffer ctx)).

(** Big-endian value of a sequence of bytes. *)
Definition be_value (bs : list byte) : Z :=
  fold_left (fun acc b => acc * 256 + Z.of_N (Byte.to_N b)) bs 0.

Definition read (n : nat) (ctx : t) : JS.completion (list byte * t) :=
  if (pos ctx + n <=? length (buffer ctx))%nat
  then JS.Return (firstn n (skipn (pos ctx) (buffer ctx)),
                  mk (buffer ctx) (pos ctx + n))
  else JS.Throw JS.AssertionError.

Definition readUInt32 (ctx : t) : JS.completion (Z * t) :=
  '(bs, ctx') ← read 4 ctx; JS.Return (be_value bs, ctx').

Definition readUInt64 (ctx : t) : JS.completion (Z * t) :=
  '(bs, ctx') ← read 8 ctx; JS.Return (be_value bs, ctx').

Definition readFloat64 (ctx : t) : JS.completion (Number.number * t) :=
  '(bs, ctx') ← read 8 ctx; JS.Return (Number.of_bits (be_value bs), ctx').

End ReadContext.

(** ** src/services/BeatInfo.ts *)

Module BeatInfo.

Import JS.
Import Number.

(** The user's listener [(n: BeatData) => void], known by a label. *)
Inductive beatCallback : Type := Listener (label : string).

Record BeatOptions : Type := { everyNBeats : number }.

Record playerBeatData : Type := {
  beat : number;
  totalBeats : number;
  BPM : number;
  samples : option number
}.

Record BeatData : Type := {
  clock : Z;
  playerCount : Z;
  player : list playerBeatData
}.

(** [ServiceMessage<BeatData>]; [message] is tested for null by the
    handler. *)
Record ServiceMessage : Type := {
  id : Z;
  message : option BeatData
}.

(** The fields of a [BeatInfo] object, with two logs of what it did to
    the outside: the bytes handed to [Service.write] and the calls of
    the user's listener, oldest first. *)
Record t : Type := {
  _userBeatCallback : option beatCallback;
  _userBeatOptions : option BeatOptions;
  _currentBeatData : option BeatData;
  written : list (list byte);
  calls : list (beatCallback * BeatData)
}.

Definition new : t :=
  {| _userBeatCallback := None; _userBeatOptions := None;
     _currentBeatData := None; written := []; calls := [] |}.

Definition sendBeatInfoRequest (self : t) : t :=
  {| _userBeatCallback := _userBeatCallback self;
     _userBeatOptions := _userBeatOptions self;
     _currentBeatData := _currentBeatData self;
     written := written self ++ [["000"; "000"; "000"; "004"; "000"; "000"; "000"; "000"]%byte];
     calls := calls self |}.

Definition startBeatInfo (beatCB : beatCallback) (options : BeatOptions) (self : t) : t :=
  sendBeatInfoRequest
    {| _userBeatCallback := Some beatCB;
       _userBeatOptions := Some options;
       _currentBeatData := _currentBeatData self;
       written := written self;
       calls := calls self |}.

(** *** parseData *)

(** First pass: [beat], [totalBeats] and [BPM] of each player. *)
Fixpoint readPlayers (n : nat) (p_ctx : ReadContext.t) (player : list playerBeatData)
  : completion (list playerBeatData * ReadContext.t) :=
  match n with
  | O => Return (player, p_ctx)
  | S n' =>
      '(b, c1) ← ReadContext.readFloat64 p_ctx;
      '(tb, c2) ← ReadContext.readFloat64 c1;
      '(bpm, c3) ← ReadContext.readFloat64 c2;
      readPlayers n' c3
        (player ++ [{| beat := b; totalBeats := tb; BPM := bpm; samples := None |}])
  end.

Definition setSamples (p : playerBeatData) (s : number) : playerBeatData :=
  {| beat := beat p; totalBeats := totalBeats p; BPM := BPM p; samples := Some s |}.

(** Second pass: [player[i].samples = p_ctx.readFloat64()]. *)
Fixpoint readSamples (n i : nat) (p_ctx : ReadContext.t) (player : list playerBeatData)
  : completion (list playerBeatData * ReadContext.t) :=
  match n with
  | O => Return (player, p_ctx)
  | S n' =>
      '(s, c1) ← ReadContext.readFloat64 p_ctx;
      match player !! i with
      | None => Throw TypeError
      | Some p => readSamples n' (S i) c1 (<[i := setSamples p s]> player)
      end
  end.

Definition parseData (p_ctx : ReadContext.t) : completion (ServiceMessage * ReadContext.t) :=
  _ ← assert (72 <? ReadContext.sizeLeft p_ctx);
  '(id, c1) ← ReadContext.readUInt32 p_ctx;
  '(clock, c2) ← ReadContext.readUInt64 c1;
  '(playerCount, c3) ← ReadContext.readUInt32 c2;
  '(player, c4) ← readPlayers (Z.to_nat playerCount) c3 [];
  '(player, c5) ← readSamples (Z.to_nat playerCount) 0 c4 player;
  _ ← assert (ReadContext.isEOF c5);
  Return ({| id := id;
             message := Some {| clock := clock; playerCount := playerCount;
                                player := player |} |}, c5).

(** *** messageHandler *)

Definition resCheck (res prevBeat currentBeat : number) : bool :=
  geb (sub (floor (div currentBeat res)) (floor (div prevBeat res))) (of_Z 1)
  || geb (sub (floor (div prevBeat res)) (floor (div currentBeat res))) (of_Z 1).

Definition setCurrentBeatData (m : BeatData) (self : t) : t :=
  {| _userBeatCallback := _userBeatCallback self;
     _userBeatOptions := _userBeatOptions self;
     _currentBeatData := Some m;
     written := written self;
     calls := calls self |}.

(** [this._userBeatCallback(m)] for a user's function that returns:
    calling [null] is a TypeError.  A user's function that throws is the
    subject of [callUserBeatCallbackWith] below. *)
Definition callUserBeatCallback (m : BeatData) (self : t) : t * completion unit :=
  match _userBeatCallback self with
  | None => (self, Throw TypeError)
  | Some cb =>
      ({| _userBeatCallback := _userBeatCallback self;
          _userBeatOptions := _userBeatOptions self;
          _currentBeatData := _currentBeatData self;
          written := written self;
          calls := calls self ++ [(cb, m)] |}, Return tt)
  end.

(** The loop [for (let i = 0; i < playerCount; i++)] with [n] rounds
    left; the three arguments of [resCheck] are evaluated in order, and
    reading a property of a missing array entry is a TypeError. *)
Fixpoint checkPlayers (n i : nat) (options : option BeatOptions)
    (current message : list playerBeatData) (hasUpdated : bool) : completion bool :=
  match n with
  | O => Return hasUpdated
  | S n' =>
      match options with
      | None => Throw TypeError
      | Some o =>
          match current !! i with
          | None => Throw TypeError
          | Some c =>
              match message !! i with
              | None => Throw TypeError
              | Some p =>
                  checkPlayers n' (S i) options current message
                    (if resCheck (everyNBeats o) (beat c) (beat p) then true
                     else hasUpdated)
              end
          end
      end
  end.

(** The handler with a user's function that returns; [messageHandlerWith]
    below is the handler for any user's function. *)
Definition messageHandler (p_data : option ServiceMessage) (self : t) : t * completion unit :=
  match p_data with
  | None => (self, Return tt)
  | Some d =>
      match message d with
      | None => (self, Return tt)
      | Some msg =>
          let '(self1, c1) :=
            match _currentBeatData self with
            | None => callUserBeatCallback msg (setCurrentBeatData msg self)
            | Some _ => (self, Return tt)
            end in
          match c1 with
          | Throw e => (self1, Throw e)
          | Return _ =>
              match _currentBeatData self1 with
              | None => (self1, Throw TypeError)
              | Some cur =>
                  match checkPlayers (Z.to_nat (playerCount msg)) 0
                          (_userBeatOptions self1) (player cur) (player msg) false with
                  | Throw e => (self1, Throw e)
                  | Return hasUpdated =>
                      if hasUpdated
                      then callUserBeatCallback msg (setCurrentBeatData msg self1)
                      else (self1, Return tt)
                  end
              end
          end
      end
  end.

(** *** A listener that may throw *)

(** What a call of the user's function on a message ends in: it returns
    or it throws. *)
Definition beatCallbackOutcome : Type := beatCallback -> BeatData -> completion unit.

(** [this._userBeatCallback(m)]: calling [null] is a TypeError, and an
    exception of the user's function leaves the call. *)
Definition callUserBeatCallbackWith (outcome : beatCallbackOutcome) (m : BeatData)
    (self : t) : t * completion unit :=
  match _userBeatCallback self with
  | None => (self, Throw TypeError)
  | Some cb =>
      ({| _userBeatCallback := _userBeatCallback self;
          _userBeatOptions := _userBeatOptions self;
          _currentBeatData := _currentBeatData self;
          written := written self;
          calls := calls self ++ [(cb, m)] |}, outcome cb m)
  end.

(** [messageHandler]: nothing catches an exception of the user's
    function, so it leaves the handler, after the message was cached. *)
Definition messageHandlerWith (outcome : beatCallbackOutcome)
    (p_data : option ServiceMessage) (self : t) : t * completion unit :=
  match p_data with
  | None => (self, Return tt)
  | Some d =>
      match message d with
      | None => (self, Return tt)
      | Some msg =>
          let '(self1, c1) :=
            match _currentBeatData self with
            | None => callUserBeatCallbackWith outcome msg (setCurrentBeatData msg self)
            | Some _ => (self, Return tt)
            end in
          match c1 with
          | Throw e => (self1, Throw e)
          | Return _ =>
              match _currentBeatData self1 with
              | None => (self1, Throw TypeError)
              | Some cur =>
                  match checkPlayers (Z.to_nat (playerCount msg)) 0
                          (_userBeatOptions self1) (player cur) (player msg) false with
                  | Throw e => (self1, Throw e)
                  | Return hasUpdated =>
                      if hasUpdated
                      then callUserBeatCallbackWith outcome msg
                             (setCurrentBeatData msg self1)
                      else (self1, Return tt)
                  end
              end
          end
      end
  end.

End BeatInfo.

(** ** Shared types (src/types) *)

Module Types.

Record Software : Type := { name : string; version : string }.

(** One discovered remote endpoint. *)
Record ConnectionInfo : Type := {
  address : string;
  port : N;
  token : list byte;
  source : string;
  software : Software
}.

End Types.

(** ** Device identity *)

Module DeviceId.

Definition hexDigit (n : N) : ascii :=
  match n with
  | 0 => "0" | 1 => "1" | 2 => "2" | 3 => "3" | 4 => "4" | 5 => "5"
  | 6 => "6" | 7 => "7" | 8 => "8" | 9 => "9" | 10 => "a" | 11 => "b"
  | 12 => "c" | 13 => "d" | 14 => "e" | _ => "f"
  end%N%char.

(** [Buffer.from(bytes).toString('hex')]: two lower-case digits per byte. *)
Fixpoint toHex (bytes : list byte) : string :=
  match bytes with
  | [] => EmptyString
  | b :: bs =>
      String (hexDigit (Byte.to_N b / 16)) (String (hexDigit (Byte.to_N b mod 16)) (toHex bs))
  end.

Definition join (sep : string) (parts : list string) : string :=
  match parts with
  | [] => EmptyString
  | p :: ps => fold_left (fun acc q => String.append acc (String.append sep q)) ps p
  end.

(** [/(\w{8})(\w{4})(\w{4})(\w{4})(\w{12})/i.exec(hex)] followed by
    [.splice(1)]: on a string of hexadecimal digits (all of them word
    characters) the leftmost match starts at index 0 and exists exactly
    when there are 32 characters; [exec] returns [null] otherwise. *)
Definition execGroups (hex : string) : option (list string) :=
  if (String.length hex <? 32)%nat then None
  else Some [substring 0 8 hex; substring 8 4 hex; substring 12 4 hex;
             substring 16 4 hex; substring 20 12 hex].

(** The dashed-hex key of a raw token; [null.splice] is a TypeError. *)
Definition deviceString (bytes : list byte) : JS.completion string :=
  match execGroups (toHex bytes) with
  | None => JS.Throw JS.TypeError
  | Some groups => JS.Return (join "-" groups)
  end.

(** Modelled from the spec: the class [DeviceId] of [src/devices] is not
    among the sources.  Section 3 of the specification: an identity
    derived from a 16-byte token by formatting it as a canonical
    UUID-style dashed hex string, immutable once constructed. *)
Record t : Type := mk { m_array : list byte; string : String.string }.

Definition dashed (hex : String.string) : String.string :=
  join "-" [substring 0 8 hex; substring 8 4 hex; substring 12 4 hex;
            substring 16 4 hex; substring 20 12 hex].

Definition new (token : list byte) : t :=
  {| m_array := token; string := dashed (toHex token) |}.

End DeviceId.

(** ** The Devices registry (src/unnamed/part_000) *)

Module Devices.

Import JS.
Import Types.

Record Service : Type := { service_name : string }.

(** A [Device]; the back reference [parent] is left out. *)
Record Device : Type := {
  deviceId : DeviceId.t;
  info : ConnectionInfo;
  services : gmap string Service
}.

Inductive Event : Type :=
| newDevice (device : Device).

Record t : Type := {
  _devices : gmap string Device;
  emitted : list Event
}.

Definition new : t := {| _devices := ∅; emitted := [] |}.

(** The argument [string | Uint8Array | DeviceId]. *)
Inductive IdArg : Type :=
| OfString (s : string)
| OfDeviceId (d : DeviceId.t)
| OfBytes (a : list byte).

Definition newDeviceOf (info : ConnectionInfo) : Device :=
  {| deviceId := DeviceId.new (token info); info := info; services := ∅ |}.

Definition addDevice (info : ConnectionInfo) (self : t) : t * Device :=
  let device := newDeviceOf info in
  ({| _devices := <[DeviceId.string (deviceId device) := device]> (_devices self);
      emitted := emitted self ++ [newDevice device] |}, device).

(** The key under which each form of the argument is looked up. *)
Definition keyOf (deviceId : IdArg) : completion string :=
  match deviceId with
  | OfString s => Return s
  | OfDeviceId d => Return (DeviceId.string d)
  | OfBytes a => DeviceId.deviceString a
  end.

Definition hasDevice (deviceId : IdArg) (self : t) : completion bool :=
  key ← keyOf deviceId;
  Return (bool_decide (is_Some (_devices self !! key))).

Definition device (deviceId : IdArg) (self : t) : completion (option Device) :=
  key ← keyOf deviceId;
  Return (_devices self !! key).

(** What the rest of the program does to the registry while a caller
    sleeps for 150 ms: the [addDevice] calls, in order. *)
Definition tick : Type := list ConnectionInfo.

Definition runTick (tk : tick) (self : t) : t :=
  fold_left (fun s info => fst (addDevice info s)) tk self.

(** The state of the promise returned by [getDevice]. *)
Inductive promise (A : Type) : Type :=
| Suspended
| Settled (c : completion A).

Arguments Suspended {A}.
Arguments Settled {A} c.

(** [getDevice] against a schedule: one entry per [await sleep(150)],
    giving what ran during that sleep.  The promise is still pending when
    the schedule ends before the device appears. *)
Fixpoint getDevice (deviceId : IdArg) (schedule : list tick) (self : t)
  : t * promise (option Device) :=
  match hasDevice deviceId self with
  | Throw e => (self, Settled (Throw e))
  | Return true => (self, Settled (device deviceId self))
  | Return false =>
      match schedule with
      | [] => (self, Suspended)
      | tk :: schedule' => getDevice deviceId schedule' (runTick tk self)
      end
  end.

(** [device.info = info] on a stored device. *)
Definition setInfo (info : ConnectionInfo) (d : Device) : Device :=
  {| deviceId := deviceId d; info := info; services := services d |}.

(** [updateDeviceInfo(deviceId: DeviceId, info)]: waits for the device
    with [getDevice], replaces its [info] and stores it again under
    [deviceId.string]. *)
Definition updateDeviceInfo (deviceId : DeviceId.t) (info : ConnectionInfo)
    (schedule : list tick) (self : t) : t * promise unit :=
  match getDevice (OfDeviceId deviceId) schedule self with
  | (self1, Suspended) => (self1, Suspended)
  | (self1, Settled (Throw e)) => (self1, Settled (Throw e))
  | (self1, Settled (Return None)) => (self1, Settled (Throw TypeError))
  | (self1, Settled (Return (Some device))) =>
      ({| _devices := <[DeviceId.string deviceId := setInfo info device]> (_devices self1);
          emitted := emitted self1 |}, Settled (Return tt))
  end.

(** [this.device(deviceId).info?.port !== info.port]; reading [info] of
    a device that is not there is a TypeError. *)
Definition hasNewInfo (deviceId : IdArg) (info : ConnectionInfo) (self : t)
  : completion bool :=
  d ← device deviceId self;
  match d with
  | None => Throw TypeError
  | Some dev => Return (negb (N.eqb (port (Devices.info dev)) (port info)))
  end.

(** The methods [addService] and [deleteService] of a [Device]. *)
Definition Device_addService (service : Service) (d : Device) : Device :=
  {| deviceId := deviceId d; info := info d;
     services := <[service_name service := service]> (services d) |}.

Definition Device_deleteService (serviceName : string) (d : Device) : Device :=
  {| deviceId := deviceId d; info := info d;
     services := delete serviceName (services d) |}.

(** [addService] and [deleteService] of the registry look the device up
    by [deviceId.string] and change it in place. *)
Definition addService (deviceId : DeviceId.t) (service : Service) (self : t)
  : t * completion unit :=
  match _devices self !! DeviceId.string deviceId with
  | None => (self, Throw TypeError)
  | Some device =>
      ({| _devices := <[DeviceId.string deviceId := Device_addService service device]>
                        (_devices self);
          emitted := emitted self |}, Return tt)
  end.

Definition deleteService (deviceId : DeviceId.t) (serviceName : string) (self : t)
  : t * completion unit :=
  match _devices self !! DeviceId.string deviceId with
  | None => (self, Throw TypeError)
  | Some device =>
      ({| _devices := <[DeviceId.string deviceId := Device_deleteService serviceName device]>
                        (_devices self);
          emitted := emitted self |}, Return tt)
  end.

End Devices.

(** ** src/network/StageLinqDevices.ts *)

Module StageLinqDevices.

Import JS.
Import Types.

Inductive ConnectionStatus : Type := CONNECTING | CONNECTED | FAILED.

#[global] Instance ConnectionStatus_eq_dec : EqDecision ConnectionStatus.
Proof. solve_decision. Defined.

(** Modelled from the spec: the class [NetworkDevice] is not among the
    sources.  It owns the live socket for one remote endpoint; of it
    this class needs whom the socket belongs to and whether it is
    connected. *)
Record NetworkDevice : Type := {
  nd_info : ConnectionInfo;
  nd_connected : bool
}.

(** Modelled from the spec: the class [FileTransfer] is not among the
    sources.  Of a file-transfer service this class uses the method
    [getFile], which yields the bytes of a file or fails. *)
Record FileTransfer : Type := {
  getFile : string -> completion (list byte)
}.

Record StageLinqDevice : Type := {
  networkDevice : NetworkDevice;
  fileTransferService : FileTransfer
}.

Record ActingAs : Type := { actingAs_source : string }.

Record StageLinqOptions : Type := {
  maxRetries : Z;
  downloadDbSources : bool;
  actingAs : ActingAs
}.

Inductive Event : Type :=
| ready (connectionInfo : ConnectionInfo)
| connected (connectionInfo : ConnectionInfo).

(** What the network answers to one run of the connect routine: whether
    [networkDevice.connect()] succeeds, the file-transfer service that
    [connectToService(FileTransfer)] yields (or its failure), whether the
    download of the database sources succeeds and whether
    [connectToService(StateMap)] does. *)
Record ConnectOutcome : Type := {
  socketConnects : bool;
  fileTransfer : option FileTransfer;
  sourcesDownload : bool;
  stateMapConnects : bool
}.

(** The network: the answer to the k-th run of the connect routine. *)
Definition Network : Type := nat -> ConnectOutcome.

(** The fields of the object, the events it emitted and the runs of the
    connect routine so far (oldest first). *)
Record t : Type := {
  devices : gmap string StageLinqDevice;
  discoveryStatus : gmap string ConnectionStatus;
  options : StageLinqOptions;
  emitted : list Event;
  connectCalls : list ConnectionInfo
}.

Definition new (options : StageLinqOptions) : t :=
  {| devices := ∅; discoveryStatus := ∅; options := options;
     emitted := []; connectCalls := [] |}.

Definition setDevices (f : gmap string StageLinqDevice -> gmap string StageLinqDevice)
    (self : t) : t :=
  {| devices := f (devices self); discoveryStatus := discoveryStatus self;
     options := options self; emitted := emitted self;
     connectCalls := connectCalls self |}.

Definition setStatus (key : string) (s : ConnectionStatus) (self : t) : t :=
  {| devices := devices self; discoveryStatus := <[key := s]> (discoveryStatus self);
     options := options self; emitted := emitted self;
     connectCalls := connectCalls self |}.

Definition emit (e : Event) (self : t) : t :=
  {| devices := devices self; discoveryStatus := discoveryStatus self;
     options := options self; emitted := emitted self ++ [e];
     connectCalls := connectCalls self |}.

Definition enterConnect (connectionInfo : ConnectionInfo) (self : t) : t :=
  {| devices := devices self; discoveryStatus := discoveryStatus self;
     options := options self; emitted := emitted self;
     connectCalls := connectCalls self ++ [connectionInfo] |}.

Definition deviceId (device : ConnectionInfo) : string :=
  String.append (address device)
    (String.append ":"
      (String.append (pretty (port device))
        (String.append ":"
          (String.append "["
            (String.append (source device)
              (String.append "/"
                (String.append (name (software device)) "]"))))))).

Definition isConnecting (device : ConnectionInfo) (self : t) : bool :=
  bool_decide (discoveryStatus self !! deviceId device = Some CONNECTING).

Definition isConnected (device : ConnectionInfo) (self : t) : bool :=
  bool_decide (discoveryStatus self !! deviceId device = Some CONNECTED).

Definition isFailed (device : ConnectionInfo) (self : t) : bool :=
  bool_decide (discoveryStatus self !! deviceId device = Some FAILED).

(** Case folding of a regular expression with the [i] flag and without
    the [u] flag, on the characters that can match an ASCII letter. *)
Definition canonicalize (c : ascii) : ascii :=
  let n := nat_of_ascii c in
  if ((97 <=? n) && (n <=? 122))%nat then ascii_of_nat (n - 32) else c.

(** [/^pattern/i.test(s)] for a pattern of literal characters. *)
Fixpoint testPrefixI (pattern s : string) : bool :=
  match pattern with
  | EmptyString => true
  | String p pattern' =>
      match s with
      | EmptyString => false
      | String c s' =>
          Ascii.eqb (canonicalize p) (canonicalize c) && testPrefixI pattern' s'
      end
  end.

Definition isIgnored (device : ConnectionInfo) (self : t) : bool :=
  String.eqb (source device) (actingAs_source (actingAs (options self)))
  || String.eqb (name (software device)) "OfflineAnalyzer"
  || testPrefixI "SoundSwitch" (name (software device))
  || testPrefixI "Resolume" (name (software device))
  || String.eqb (name (software device)) "JM08"
  || String.eqb (name (software device)) "SSS0".

(** The connect routine.  The listeners it installs on the state map and
    on the player only forward later events and change nothing here.
    The listeners of the [connected] event are taken to return;
    [connectToPlayerWith] below is the routine for listeners that may
    throw. *)
Definition connectToPlayer (connectionInfo : ConnectionInfo) (net : Network) (self : t)
  : t * completion unit :=
  let o := net (length (connectCalls self)) in
  let self := enterConnect connectionInfo self in
  if negb (socketConnects o) then (self, Throw (Error "connect"))
  else
    match fileTransfer o with
    | None => (self, Throw (Error "FileTransfer"))
    | Some ft =>
        let self :=
          setDevices
            (insert (address connectionInfo)
               {| networkDevice := {| nd_info := connectionInfo; nd_connected := true |};
                  fileTransferService := ft |}) self in
        if downloadDbSources (options self) && negb (sourcesDownload o)
        then (self, Throw (Error "downloadSourcesFromDevice"))
        else if negb (stateMapConnects o) then (self, Throw (Error "StateMap"))
        else (emit (connected connectionInfo) self, Return tt)
    end.

(** How the retry loop of [handleDevice] is left. *)
Inductive loopExit : Type :=
| Returned      (* the [return] inside the loop *)
| Exhausted     (* the loop condition became false *)
| OutOfFuel.

(** [while (attempt < this.options.maxRetries) { try ... catch ... }].
    The [sleep(500)] of the catch block is not awaited and delays
    nothing.  The listeners of the [ready] event are taken to return;
    [retryLoopWith] below is the loop for listeners that may throw. *)
Fixpoint retryLoop (fuel : nat) (attempt : Z) (connectionInfo : ConnectionInfo)
    (net : Network) (self : t) : t * loopExit :=
  if attempt <? maxRetries (options self) then
    match fuel with
    | O => (self, OutOfFuel)
    | S fuel' =>
        match connectToPlayer connectionInfo net self with
        | (self1, Return _) =>
            (emit (ready connectionInfo)
               (setStatus (deviceId connectionInfo) CONNECTED self1), Returned)
        | (self1, Throw _) =>
            retryLoop fuel' (attempt + 1) connectionInfo net self1
        end
    end
  else (self, Exhausted).

(** [handleDevice] with listeners that return; [handleDeviceWith] below
    is the method for listeners that may throw. *)
Definition handleDevice (connectionInfo : ConnectionInfo) (net : Network) (self : t)
  : t * completion unit :=
  if isConnected connectionInfo self
     || isConnecting connectionInfo self
     || isFailed connectionInfo self
     || isIgnored connectionInfo self
  then (self, Return tt)
  else
    let self := setStatus (deviceId connectionInfo) CONNECTING self in
    let attempt := 1 in
    match retryLoop (Z.to_nat (maxRetries (options self) - attempt)) attempt
            connectionInfo net self with
    | (self1, Returned) => (self1, Return tt)
    | (self1, Exhausted) =>
        (setStatus (deviceId connectionInfo) FAILED self1,
         Throw (Error (String.append "Could not connect to " (deviceId connectionInfo))))
    | (self1, OutOfFuel) => (self1, Throw (Error "retry loop did not finish"))
    end.

(** Modelled from the spec: [NetworkDevice.disconnect] is not among the
    sources.  [disconnectAll] is to disconnect each underlying socket;
    the call is taken to return and to leave the socket disconnected. *)
Definition disconnect (d : StageLinqDevice) : StageLinqDevice :=
  {| networkDevice := {| nd_info := nd_info (networkDevice d); nd_connected := false |};
     fileTransferService := fileTransferService d |}.

(** [for (const device of this.devices.values())
       device.networkDevice.disconnect()]: nothing but the sockets of
    the tracked devices is touched. *)
Definition disconnectAll (self : t) : t :=
  setDevices (fmap disconnect) self.

Definition downloadFile (ipAddress path : string) (self : t) : completion (list byte) :=
  match devices self !! ipAddress with
  | None => Throw TypeError
  | Some device =>
      file ← getFile (fileTransferService device) path;
      Return file
  end.

(** The calls a client can make on the object, and a run of them. *)
Inductive Call : Type :=
| CallHandleDevice (connectionInfo : ConnectionInfo)
| CallDisconnectAll
| CallDownloadFile (ipAddress path : string).

Definition call (net : Network) (c : Call) (self : t) : t :=
  match c with
  | CallHandleDevice connectionInfo => fst (handleDevice connectionInfo net self)
  | CallDisconnectAll => disconnectAll self
  | CallDownloadFile _ _ => self
  end.

Definition run (net : Network) (cs : list Call) (self : t) : t :=
  fold_left (fun s c => call net c s) cs self.

(** *** Listeners that may throw *)

(** What the listeners registered on the object do with an event:
    [emit] calls them in turn and an exception of one of them leaves
    [emit]. *)
Definition Listeners : Type := Event -> completion unit.

Definition emitWith (listeners : Listeners) (e : Event) (self : t)
  : t * completion unit :=
  (emit e self, listeners e).

(** The connect routine: its last statement emits [connected], so an
    exception of a listener leaves the routine like any other failure,
    after the device was stored. *)
Definition connectToPlayerWith (listeners : Listeners) (connectionInfo : ConnectionInfo)
    (net : Network) (self : t) : t * completion unit :=
  let o := net (length (connectCalls self)) in
  let self := enterConnect connectionInfo self in
  if negb (socketConnects o) then (self, Throw (Error "connect"))
  else
    match fileTransfer o with
    | None => (self, Throw (Error "FileTransfer"))
    | Some ft =>
        let self :=
          setDevices
            (insert (address connectionInfo)
               {| networkDevice := {| nd_info := connectionInfo; nd_connected := true |};
                  fileTransferService := ft |}) self in
        if downloadDbSources (options self) && negb (sourcesDownload o)
        then (self, Throw (Error "downloadSourcesFromDevice"))
        else if negb (stateMapConnects o) then (self, Throw (Error "StateMap"))
        else emitWith listeners (connected connectionInfo) self
    end.

(** The retry loop: the status is set to CONNECTED and [ready] is
    emitted inside the [try], so an exception of a [ready] listener is
    caught like a failed connection and the loop goes on. *)
Fixpoint retryLoopWith (listeners : Listeners) (fuel : nat) (attempt : Z)
    (connectionInfo : ConnectionInfo) (net : Network) (self : t) : t * loopExit :=
  if attempt <? maxRetries (options self) then
    match fuel with
    | O => (self, OutOfFuel)
    | S fuel' =>
        match connectToPlayerWith listeners connectionInfo net self with
        | (self1, Return _) =>
            match emitWith listeners (ready connectionInfo)
                    (setStatus (deviceId connectionInfo) CONNECTED self1) with
            | (self2, Return _) => (self2, Returned)
            | (self2, Throw _) =>
                retryLoopWith listeners fuel' (attempt + 1) connectionInfo net self2
            end
        | (self1, Throw _) =>
            retryLoopWith listeners fuel' (attempt + 1) connectionInfo net self1
        end
    end
  else (self, Exhausted).

Definition handleDeviceWith (listeners : Listeners) (connectionInfo : ConnectionInfo)
    (net : Network) (self : t) : t * completion unit :=
  if isConnected connectionInfo self
     || isConnecting connectionInfo self
     || isFailed connectionInfo self
     || isIgnored connectionInfo self
  then (self, Return tt)
  else
    let self := setStatus (deviceId connectionInfo) CONNECTING self in
    let attempt := 1 in
    match retryLoopWith listeners (Z.to_nat (maxRetries (options self) - attempt)) attempt
            connectionInfo net self with
    | (self1, Returned) => (self1, Return tt)
    | (self1, Exhausted) =>
        (setStatus (deviceId connectionInfo) FAILED self1,
         Throw (Error (String.append "Could not connect to " (deviceId connectionInfo))))
    | (self1, OutOfFuel) => (self1, Throw (Error "retry loop did not finish"))
    end.

(** [isDeviceSeen] asks the discovery-status map for the address. *)
Definition isDeviceSeen (device : ConnectionInfo) (self : t) : bool :=
  bool_decide (is_Some (discoveryStatus self !! address device)).

(** The log line of [handleDevice].  Its first test,
    [if (!this.isDeviceSeen)], negates the method itself (not a call of
    it), which is never falsy, so that branch is never taken. *)
Definition showDiscoveryStatus (device : ConnectionInfo) (self : t) : string :=
  let msg := String.append "Discovery: " (String.append (deviceId device) " ") in
  if isIgnored device self then String.append msg "(IGNORED)"
  else
    String.append msg
      (if isConnecting device self then "(CONNECTING)"
       else if isConnected device self then "(CONNECTED)"
       else if isFailed device self then "(FAILED)"
       else "(NEW)").

End StageLinqDevices.

(** * Vocabulary of the properties *)

Module BeatInfoSpec.

Import Number BeatInfo.

(** Player [i] crossed a beat boundary between the cached message and
    the new one, as [resCheck] computes it. *)
Definition crossedAt (o : BeatOptions) (cur msg : list playerBeatData) (i : nat) : Prop :=
  ∃ c p, cur !! i = Some c ∧ msg !! i = Some p
         ∧ resCheck (everyNBeats o) (beat c) (beat p) = true.

Definition crossed (o : BeatOptions) (cur msg : BeatData) : Prop :=
  ∃ i, (i < Z.to_nat (playerCount msg))%nat ∧ crossedAt o (player cur) (player msg) i.

(** The state after [msg] was cached and handed to the listener [cb]. *)
Definition forwarded (cb : beatCallback) (msg : BeatData) (self : t) : t :=
  {| _userBeatCallback := _userBeatCallback self;
     _userBeatOptions := _userBeatOptions self;
     _currentBeatData := Some msg;
     written := written self;
     calls := calls self ++ [(cb, msg)] |}.

(** Sample data: a deck at a whole beat, a message of two decks and a
    later message of three decks whose first deck moved from beat 1 to
    beat 5. *)
Definition deckAt (b : Z) : playerBeatData :=
  {| beat := of_Z b; totalBeats := of_Z 64; BPM := of_Z 120; samples := Some (of_Z 0) |}.

Definition twoDecks : BeatData :=
  {| clock := 1; playerCount := 2; player := [deckAt 1; deckAt 1] |}.

Definition threeDecks : BeatData :=
  {| clock := 2; playerCount := 3; player := [deckAt 5; deckAt 1; deckAt 1] |}.

Definition every4 : t := startBeatInfo (Listener "onBeat") {| everyNBeats := of_Z 4 |} new.

End BeatInfoSpec.

(** The beat-info frame as it is laid out on the wire. *)
Module Wire.

Import Number BeatInfo.

Definition byteOf (z : Z) : byte :=
  match Byte.of_N (Z.to_N z) with
  | Some b => b
  | None => "000"%byte
  end.

(** The [n] bytes of [v], most significant first. *)
Fixpoint be_bytes (n : nat) (v : Z) : list byte :=
  match n with
  | O => []
  | S n' => be_bytes n' (v / 256) ++ [byteOf (v mod 256)]
  end.


(** The four float64 fields of one player, as 64-bit patterns. *)
Record Player : Type := {
  w_beat : Z;
  w_totalBeats : Z;
  w_BPM : Z;
  w_samples : Z
}.


Definition firstPass (players : list Player) : list byte :=
  flat_map (λ p, be_bytes 8 (w_beat p) ++ be_bytes 8 (w_totalBeats p)
                 ++ be_bytes 8 (w_BPM p)) players.

Definition secondPass (players : list Player) : list byte :=
  flat_map (λ p, be_bytes 8 (w_samples p)) players.

(** uint32 messageId, uint64 clock, uint32 playerCount, the triples of
    all players, then the samples of all players. *)
Definition frame (messageId clock : Z) (players : list Player) : list byte :=
  be_bytes 4 messageId ++ be_bytes 8 clock
  ++ be_bytes 4 (Z.of_nat (length players))
  ++ firstPass players ++ secondPass players.



(** Sample data: a frame of two players at beats 7.9 and 8.1. *)
Definition samplePlayers : list Player :=
  [ {| w_beat := 0x401F99999999999A; w_totalBeats := 0x4050000000000000;
       w_BPM := 0x405E000000000000; w_samples := 0 |};
    {| w_beat := 0x4020333333333333; w_totalBeats := 0x4050000000000000;
       w_BPM := 0x405E000000000000; w_samples := 0x40E5888000000000 |} ].

Definition sampleFrame : list byte := frame 1 1000 samplePlayers.

End Wire.

(** The registry as a schedule of [addDevice] calls sees it. *)
Module DevicesSpec.

Import Types Devices.

(** The key under which [addDevice info] stores its device. *)
Definition addedKey (info : ConnectionInfo) : string :=
  DeviceId.string (DeviceId.new (token info)).

(** No [addDevice] of the schedule stores under [key]. *)
Definition neverAdded (key : string) (schedule : list tick) : Prop :=
  ∀ tk info, tk ∈ schedule → info ∈ tk → addedKey info ≠ key.

(** Sample data: a 16-byte token and the announcement carrying it. *)
Definition sampleToken : list byte :=
  ["001"; "002"; "003"; "004"; "005"; "006"; "007"; "008";
   "009"; "010"; "011"; "012"; "013"; "014"; "015"; "255"]%byte.

Definition sampleInfo : ConnectionInfo :=
  {| address := "192.168.1.20"; port := 51337; token := sampleToken;
     source := "sc6000"; software := {| name := "JP14"; version := "3.0.0" |} |}.

Definition otherInfo : ConnectionInfo :=
  {| address := "192.168.1.21"; port := 51338;
     token := ["016"; "002"; "003"; "004"; "005"; "006"; "007"; "008";
               "009"; "010"; "011"; "012"; "013"; "014"; "015"; "255"]%byte;
     source := "sc6000"; software := {| name := "JP14"; version := "3.0.0" |} |}.

End DevicesSpec.

(** The ignore policy in the words of the specification, and sample
    data for the orchestrator. *)
Module StageLinqDevicesSpec.

Import Types StageLinqDevices.

Definition toLower (c : ascii) : ascii :=
  let n := nat_of_ascii c in
  if ((65 <=? n) && (n <=? 90))%nat then ascii_of_nat (n + 32) else c.

Fixpoint lower (s : string) : string :=
  match s with
  | EmptyString => EmptyString
  | String c s' => String (toLower c) (lower s')
  end.

(** [s] starts with [prefix], letters compared without regard to case. *)
Definition hasPrefixIgnoringCase (prefix s : string) : Prop :=
  ∃ pre rest, s = String.append pre rest ∧ lower pre = lower prefix.

Definition ignoredBySpec (ownSource : string) (device : ConnectionInfo) : Prop :=
  source device = ownSource
  ∨ name (software device) = "OfflineAnalyzer"
  ∨ hasPrefixIgnoringCase "SoundSwitch" (name (software device))
  ∨ hasPrefixIgnoringCase "Resolume" (name (software device))
  ∨ name (software device) = "JM08"
  ∨ name (software device) = "SSS0".

(** Two announcements of the same (address, port, source, software name). *)
Definition sameIdentity (a b : ConnectionInfo) : Prop :=
  address a = address b ∧ port a = port b ∧ source a = source b
  ∧ name (software a) = name (software b).

(** Sample data. *)
Definition retry3 : StageLinqOptions :=
  {| maxRetries := 3; downloadDbSources := false;
     actingAs := {| actingAs_source := "stagelinqjs" |} |}.

Definition player1 : ConnectionInfo :=
  {| address := "192.168.1.20"; port := 51337;
     token := []; source := "sc6000";
     software := {| name := "JP14"; version := "3.0.0" |} |}.


Definition soundSwitch : ConnectionInfo :=
  {| address := "192.168.1.30"; port := 50000;
     token := []; source := "laptop";
     software := {| name := "SoundSwitchXYZ"; version := "1" |} |}.

Definition emptyFiles : FileTransfer := {| getFile := λ _, JS.Return [] |}.

(** A network on which every connection attempt fails, and one on which
    every attempt succeeds. *)
Definition unreachable : Network :=
  λ _, {| socketConnects := false; fileTransfer := None;
          sourcesDownload := false; stateMapConnects := false |}.

Definition reachable : Network :=
  λ _, {| socketConnects := true; fileTransfer := Some emptyFiles;
          sourcesDownload := true; stateMapConnects := true |}.

(** The object after a first announcement of [player1] on the
    unreachable network. *)
Definition afterFailure : t := (handleDevice player1 unreachable (new retry3)).1.


End StageLinqDevicesSpec.

(** Runs of the handler and further sample data. *)
Module BeatInfoRuns.

Import Number BeatInfo.

(** The object after the handler has been given each payload in turn,
    whether or not a call threw. *)
Definition handleAll (payloads : list (option ServiceMessage)) (self : t) : t :=
  fold_left (λ s d, (messageHandler d s).1) payloads self.


(** A user's function that returns on every message, and one that
    throws on every message. *)
Definition returning : beatCallbackOutcome := λ _ _, JS.Return tt.

Definition throwing : beatCallbackOutcome := λ _ _, JS.Throw (JS.Error "listener").


(** The last message handed to the listener. *)
Definition lastForwarded (self : t) : option BeatData :=
  snd <$> last (calls self).



End BeatInfoRuns.

(** The forms in which one token can be given to the registry, and
    further sample data. *)
Module RegistrySpec.

Import Types Devices.

Definition formsOf (token : list byte) : list IdArg :=
  [OfBytes token; OfDeviceId (DeviceId.new token);
   OfString (DeviceId.string (DeviceId.new token))].

Definition stateMapService : Service := {| service_name := "StateMap" |}.

(** The sample endpoint announced again from another port. *)
Definition sampleInfoMoved : ConnectionInfo :=
  {| address := "192.168.1.20"; port := 40000; token := DevicesSpec.sampleToken;
     source := "sc6000"; software := {| name := "JP14"; version := "3.0.0" |} |}.

End RegistrySpec.

(** Outcomes of the connect routine. *)
Module ConnectSpec.

Import Types StageLinqDevices.

(** The answer of the network lets the connect routine run to its end. *)
Definition connects (opts : StageLinqOptions) (o : ConnectOutcome) : bool :=
  socketConnects o
  && bool_decide (is_Some (fileTransfer o))
  && implb (downloadDbSources opts) (sourcesDownload o)
  && stateMapConnects o.

(** The entry that the connect routine stores for a device. *)
Definition tracked (connectionInfo : ConnectionInfo) (ft : FileTransfer)
  : StageLinqDevice :=
  {| networkDevice := {| nd_info := connectionInfo; nd_connected := true |};
     fileTransferService := ft |}.

(** The log line for an announcement that is neither ignored nor known. *)
Definition newLine (device : ConnectionInfo) : string :=
  String.append (String.append "Discovery: " (String.append (deviceId device) " "))
    "(NEW)".

(** Sample data: a network whose first attempt fails and whose later
    attempts succeed, one on which the download of the database sources
    never succeeds, and options that allow five attempts, one attempt
    and three attempts with the download of the database sources. *)
Definition retry5 : StageLinqOptions :=
  {| maxRetries := 5; downloadDbSources := false;
     actingAs := {| actingAs_source := "stagelinqjs" |} |}.

Definition retry1 : StageLinqOptions :=
  {| maxRetries := 1; downloadDbSources := false;
     actingAs := {| actingAs_source := "stagelinqjs" |} |}.

Definition flaky : Network :=
  λ k, match k with
       | O => StageLinqDevicesSpec.unreachable 0%nat
       | S _ => StageLinqDevicesSpec.reachable 0%nat
       end.

Definition noDatabase : Network :=
  λ _, {| socketConnects := true;
          fileTransfer := Some StageLinqDevicesSpec.emptyFiles;
          sourcesDownload := false; stateMapConnects := true |}.

Definition retry3Db : StageLinqOptions :=
  {| maxRetries := 3; downloadDbSources := true;
     actingAs := {| actingAs_source := "stagelinqjs" |} |}.

(** Listeners that return on every event, and listeners that throw on
    every event. *)
Definition quiet : Listeners := λ _, JS.Return tt.

Definition failing : Listeners := λ _, JS.Throw (JS.Error "listener").

(** Listeners of which one of [ready] throws. *)
Definition readyThrows : Listeners :=
  λ e, match e with
       | ready _ => JS.Throw (JS.Error "listener")
       | connected _ => JS.Return tt
       end.

(** The events of [n] runs of the connect routine that got through,
    each followed by [ready]. *)
Definition announced (connectionInfo : ConnectionInfo) (n : nat) : list Event :=
  concat (replicate n [connected connectionInfo; ready connectionInfo]).

End ConnectSpec.

(** * Properties of the beat-info handler *)

Section BeatInfoHandler.

Import JS Number BeatInfo BeatInfoSpec.

Lemma sub_diag_not_ge_one (v : number) : geb (sub v v) (of_Z 1) = false.
Proof.
  destruct v as [s|s| |s m e]; try reflexivity; try (destruct s; reflexivity).
  unfold geb, sub, SFsub. cbv zeta. rewrite Z.sub_diag. reflexivity.
Qed.

Lemma resCheck_same res b : resCheck res b b = false.
Proof. unfold resCheck. by rewrite sub_diag_not_ge_one. Qed.

Lemma checkPlayers_throw n : ∀ i opts (cur msg : list playerBeatData) h,
  (i ≤ length cur)%nat → (length cur < i + n)%nat →
  checkPlayers n i opts cur msg h = Throw TypeError.
Proof.
  induction n as [|n IH]; intros i opts cur msg h Hle Hlt; [lia|].
  simpl. destruct opts as [o|]; [|done].
  destruct (cur !! i) as [c|] eqn:Hc; [|done].
  destruct (msg !! i) as [p|]; [|done].
  apply lookup_lt_Some in Hc. apply IH; lia.
Qed.

Lemma checkPlayers_return n : ∀ i o (cur msg : list playerBeatData) h,
  (i + n ≤ length cur)%nat → (i + n ≤ length msg)%nat →
  ∃ b, checkPlayers n i (Some o) cur msg h = Return b
       ∧ (b = true ↔ h = true ∨ ∃ j, (i ≤ j < i + n)%nat ∧ crossedAt o cur msg j).
Proof.
  induction n as [|n IH]; intros i o cur msg h Hc Hm; simpl.
  - exists h. split; [done|]. split; [by left|]. intros [?|(j & ? & _)]; [done|lia].
  - destruct (lookup_lt_is_Some_2 cur i) as [c Hci]; [lia|].
    destruct (lookup_lt_is_Some_2 msg i) as [p Hpi]; [lia|].
    rewrite Hci, Hpi.
    destruct (IH (S i) o cur msg
                (if resCheck (everyNBeats o) (beat c) (beat p) then true else h))
      as (b & Hb & Hiff); [lia|lia|].
    exists b. split; [done|]. rewrite Hiff. split.
    + intros [Hh|(j & Hj & Hx)].
      * destruct (resCheck _ _ _) eqn:Hr; [|by left].
        right. exists i. split; [lia|]. by exists c, p.
      * right. exists j. split; [lia|done].
    + intros [Hh|(j & Hj & Hx)].
      * left. by destruct (resCheck _ _ _).
      * destruct (decide (j = i)) as [->|Hne].
        -- left. destruct Hx as (c' & p' & Hc' & Hp' & Hr).
           rewrite Hci in Hc'. rewrite Hpi in Hp'. simplify_eq. by rewrite Hr.
        -- right. exists j. split; [lia|done].
Qed.

(** With a step of 4 beats, going from beat 7.9 to beat 8.1 crosses a
    boundary (in either direction) and going from 4.1 to 7.9 does not. *)
Example resCheck_every_4_beats :
  resCheck (of_Z 4) (div (of_Z 79) (of_Z 10)) (div (of_Z 81) (of_Z 10)) = true
  ∧ resCheck (of_Z 4) (div (of_Z 81) (of_Z 10)) (div (of_Z 79) (of_Z 10)) = true
  ∧ resCheck (of_Z 4) (div (of_Z 41) (of_Z 10)) (div (of_Z 79) (of_Z 10)) = false.
Proof. by vm_compute. Qed.

(** A message compared with itself never crosses a boundary. *)
Lemma not_crossed_self o msg : ¬ crossed o msg msg.
Proof.
  intros (i & _ & c & p & Hc & Hp & Hr). rewrite Hc in Hp. simplify_eq.
  by rewrite resCheck_same in Hr.
Qed.

(** With a message cached, a listener and options registered, and the
    player lists long enough, the handler returns: it forwards when a
    player crossed a boundary and drops otherwise. *)
Lemma messageHandler_cached self d msg cur cb o :
  message d = Some msg →
  _currentBeatData self = Some cur →
  _userBeatCallback self = Some cb →
  _userBeatOptions self = Some o →
  playerCount msg ≤ Z.of_nat (length (player cur)) →
  playerCount msg ≤ Z.of_nat (length (player msg)) →
  ∃ b : bool,
    messageHandler (Some d) self = (if b then forwarded cb msg self else self, Return tt)
    ∧ (b = true ↔ crossed o cur msg).
Proof.
  intros Hm Hcur Hcb Ho Hlc Hlm.
  destruct self as [ucb uo ucur w cs]; simpl in *; subst.
  unfold messageHandler. rewrite Hm. simpl.
  destruct (checkPlayers_return (Z.to_nat (playerCount msg)) 0 o (player cur) (player msg) false)
    as (b & -> & Hiff); [lia|lia|].
  exists b. split; [by destruct b|].
  rewrite Hiff. unfold crossed. split.
  - intros [?|(j & Hj & Hx)]; [done|]. exists j. split; [lia|done].
  - intros (j & Hj & Hx). right. exists j. split; [lia|done].
Qed.


(** C9: the handler is not total.  With a message cached, a message
    whose [playerCount] exceeds the number of cached player entries makes
    the handler throw a TypeError, with nothing forwarded and the cache
    kept; when [playerCount] exceeds neither player list (and a listener
    and options are registered) the handler returns, having either
    forwarded the message or dropped it. *)
Theorem messageHandler_total_only_within_cached_players :
  (∀ self d msg cur,
      message d = Some msg →
      _currentBeatData self = Some cur →
      Z.of_nat (length (player cur)) < playerCount msg →
      messageHandler (Some d) self = (self, Throw TypeError))
  ∧ (∀ self d msg cur cb o,
      message d = Some msg →
      _currentBeatData self = Some cur →
      _userBeatCallback self = Some cb →
      _userBeatOptions self = Some o →
      playerCount msg ≤ Z.of_nat (length (player cur)) →
      playerCount msg ≤ Z.of_nat (length (player msg)) →
      messageHandler (Some d) self = (forwarded cb msg self, Return tt)
      ∨ messageHandler (Some d) self = (self, Return tt)).
Proof.
  split.
  - intros self d msg cur Hm Hcur Hlt.
    unfold messageHandler. rewrite Hm, Hcur. simpl. rewrite Hcur.
    rewrite checkPlayers_throw; [done|lia|lia].
  - intros self d msg cur cb o Hm Hcur Hcb Ho Hlc Hlm.
    destruct (messageHandler_cached self d msg cur cb o) as (b & -> & _); try done.
    destruct b; [by left|by right].
Qed.

Lemma messageHandler_total_only_within_cached_players_witness :
  messageHandler (Some {| id := 0; message := Some threeDecks |})
    (forwarded (Listener "onBeat") twoDecks every4)
  = (forwarded (Listener "onBeat") twoDecks every4, Throw TypeError)
  ∧ (messageHandler (Some {| id := 0; message := Some twoDecks |})
       (forwarded (Listener "onBeat") threeDecks every4)
     = (forwarded (Listener "onBeat") twoDecks (forwarded (Listener "onBeat") threeDecks every4),
        Return tt)
     ∨ messageHandler (Some {| id := 0; message := Some twoDecks |})
         (forwarded (Listener "onBeat") threeDecks every4)
       = (forwarded (Listener "onBeat") threeDecks every4, Return tt)).
Proof.
  split.
  - apply (proj1 messageHandler_total_only_within_cached_players
             (forwarded (Listener "onBeat") twoDecks every4)
             {| id := 0; message := Some threeDecks |} threeDecks twoDecks);
      [reflexivity | reflexivity | vm_compute; reflexivity].
  - apply (proj2 messageHandler_total_only_within_cached_players
             (forwarded (Listener "onBeat") threeDecks every4)
             {| id := 0; message := Some twoDecks |} twoDecks threeDecks
             (Listener "onBeat") {| everyNBeats := of_Z 4 |});
      [reflexivity | reflexivity | reflexivity | reflexivity
      | vm_compute; discriminate | vm_compute; discriminate].
Defined.

(** C1, at an input where the handler does not do what the claim says:
    the first message (two decks) is handed to the listener once and
    cached; in the next message (three decks) the first deck went from
    beat 1 to beat 5, across the boundary at 4, yet the handler throws a
    TypeError on the missing third cached deck: the message is not
    forwarded and the cache is not replaced. *)
Theorem messageHandler_crossing_not_forwarded :
  messageHandler (Some {| id := 0; message := Some twoDecks |}) every4
  = (forwarded (Listener "onBeat") twoDecks every4, Return tt)
  ∧ crossed {| everyNBeats := of_Z 4 |} twoDecks threeDecks
  ∧ messageHandler (Some {| id := 0; message := Some threeDecks |})
      (forwarded (Listener "onBeat") twoDecks every4)
    = (forwarded (Listener "onBeat") twoDecks every4, Throw TypeError).
Proof.
  split; [reflexivity|]. split; [|reflexivity].
  exists 0%nat. split; [vm_compute; lia|].
  exists (deckAt 1), (deckAt 5). repeat split; reflexivity.
Qed.

End BeatInfoHandler.

(** * Properties of the beat-info decoder *)

Section BeatInfoParse.

Import JS Number BeatInfo Wire.

(** The sample frame: 80 bytes, the first player at beat 7.9. *)
Example sampleFrame_bytes :
  length sampleFrame = 80%nat
  ∧ take 16 sampleFrame
    = ["000"; "000"; "000"; "001";
       "000"; "000"; "000"; "000"; "000"; "000"; "003"; "232";
       "000"; "000"; "000"; "002"]%byte
  ∧ of_bits (ReadContext.be_value (take 8 (drop 16 sampleFrame)))
    = div (of_Z 79) (of_Z 10).
Proof. by vm_compute. Qed.

Lemma be_value_snoc l b :
  ReadContext.be_value (l ++ [b]) = ReadContext.be_value l * 256 + Z.of_N (Byte.to_N b).
Proof. unfold ReadContext.be_value. by rewrite fold_left_app. Qed.

Lemma be_value_nonneg l : 0 ≤ ReadContext.be_value l.
Proof.
  induction l as [|b l IH] using rev_ind; [done|].
  rewrite be_value_snoc. lia.
Qed.















(** What a successful read tells about the cursor. *)
Lemma read_inv n ctx bs ctx' :
  ReadContext.read n ctx = Return (bs, ctx') →
  ctx' = ReadContext.mk (ReadContext.buffer ctx) (ReadContext.pos ctx + n)
  ∧ (ReadContext.pos ctx + n ≤ length (ReadContext.buffer ctx))%nat.
Proof.
  unfold ReadContext.read.
  destruct (Nat.leb_spec (ReadContext.pos ctx + n) (length (ReadContext.buffer ctx)));
    [|done].
  intros [= <- <-]. done.
Qed.

Lemma readUInt32_inv ctx v ctx' :
  ReadContext.readUInt32 ctx = Return (v, ctx') →
  0 ≤ v
  ∧ ctx' = ReadContext.mk (ReadContext.buffer ctx) (ReadContext.pos ctx + 4)
  ∧ (ReadContext.pos ctx + 4 ≤ length (ReadContext.buffer ctx))%nat.
Proof.
  unfold ReadContext.readUInt32.
  destruct (ReadContext.read 4 ctx) as [[bs c]|] eqn:Hr; [|done].
  apply read_inv in Hr. cbv [mbind completion_bind JS.bind].
  intros [= <- <-]. split; [apply be_value_nonneg|done].
Qed.

Lemma readUInt64_inv ctx v ctx' :
  ReadContext.readUInt64 ctx = Return (v, ctx') →
  ctx' = ReadContext.mk (ReadContext.buffer ctx) (ReadContext.pos ctx + 8)
  ∧ (ReadContext.pos ctx + 8 ≤ length (ReadContext.buffer ctx))%nat.
Proof.
  unfold ReadContext.readUInt64.
  destruct (ReadContext.read 8 ctx) as [[bs c]|] eqn:Hr; [|done].
  apply read_inv in Hr. cbv [mbind completion_bind JS.bind].
  by intros [= <- <-].
Qed.

Lemma readFloat64_inv ctx v ctx' :
  ReadContext.readFloat64 ctx = Return (v, ctx') →
  ctx' = ReadContext.mk (ReadContext.buffer ctx) (ReadContext.pos ctx + 8)
  ∧ (ReadContext.pos ctx + 8 ≤ length (ReadContext.buffer ctx))%nat.
Proof.
  unfold ReadContext.readFloat64.
  destruct (ReadContext.read 8 ctx) as [[bs c]|] eqn:Hr; [|done].
  apply read_inv in Hr. cbv [mbind completion_bind JS.bind].
  by intros [= <- <-].
Qed.

Lemma readPlayers_inv n : ∀ ctx acc pl ctx',
  readPlayers n ctx acc = Return (pl, ctx') →
  ctx' = ReadContext.mk (ReadContext.buffer ctx) (ReadContext.pos ctx + 24 * n)
  ∧ length pl = (length acc + n)%nat.
Proof.
  induction n as [|n IH]; intros ctx acc pl ctx'.
  - cbn [readPlayers]. intros [= <- <-]. rewrite !Nat.add_0_r. by destruct ctx.
  - cbn [readPlayers].
    destruct (ReadContext.readFloat64 ctx) as [[b c1]|] eqn:H1; [|done].
    apply readFloat64_inv in H1 as [-> _]. cbv [mbind completion_bind JS.bind].
    destruct (ReadContext.readFloat64 _) as [[tb c2]|] eqn:H2; [|done].
    apply readFloat64_inv in H2 as [-> _].
    destruct (ReadContext.readFloat64 _) as [[bpm c3]|] eqn:H3; [|done].
    apply readFloat64_inv in H3 as [-> _].
    intros Hr. apply IH in Hr as [-> Hl].
    cbn [ReadContext.buffer ReadContext.pos]. rewrite length_app in Hl. cbn [length] in Hl.
    split; [f_equal; lia | lia].
Qed.

Lemma readSamples_inv n : ∀ i ctx pl pl' ctx',
  readSamples n i ctx pl = Return (pl', ctx') →
  ctx' = ReadContext.mk (ReadContext.buffer ctx) (ReadContext.pos ctx + 8 * n)
  ∧ length pl' = length pl.
Proof.
  induction n as [|n IH]; intros i ctx pl pl' ctx'.
  - cbn [readSamples]. intros [= <- <-]. rewrite !Nat.add_0_r. by destruct ctx.
  - cbn [readSamples].
    destruct (ReadContext.readFloat64 ctx) as [[s c1]|] eqn:H1; [|done].
    apply readFloat64_inv in H1 as [-> _]. cbv [mbind completion_bind JS.bind].
    destruct (pl !! i) as [p|]; [|done].
    intros Hr. apply IH in Hr as [-> Hl].
    cbn [ReadContext.buffer ReadContext.pos]. rewrite length_insert in Hl.
    split; [f_equal; lia | lia].
Qed.



End BeatInfoParse.

(** * Properties of the Devices registry *)

Section DevicesRegistry.

Import JS Types Devices DevicesSpec.

Lemma length_toHex bytes : String.length (DeviceId.toHex bytes) = (2 * length bytes)%nat.
Proof.
  induction bytes as [|b bytes IH]; [done|].
  cbn [DeviceId.toHex String.length length]. rewrite IH. lia.
Qed.

(** On a token of 16 bytes (or more) the regular expression matches and
    the key is the one a [DeviceId] carries. *)
Lemma deviceString_dashed bytes :
  (16 ≤ length bytes)%nat →
  DeviceId.deviceString bytes = Return (DeviceId.string (DeviceId.new bytes)).
Proof.
  intros Hlen. unfold DeviceId.deviceString, DeviceId.execGroups.
  rewrite length_toHex.
  destruct (Nat.ltb_spec (2 * length bytes) 32); [lia|]. done.
Qed.

(** A token of fewer than 16 bytes: [exec] yields [null]. *)
Lemma deviceString_short bytes :
  (length bytes < 16)%nat → DeviceId.deviceString bytes = Throw TypeError.
Proof.
  intros Hlen. unfold DeviceId.deviceString, DeviceId.execGroups.
  rewrite length_toHex.
  destruct (Nat.ltb_spec (2 * length bytes) 32); [done|lia].
Qed.

Lemma getDevice_unfold arg key schedule self :
  keyOf arg = Return key →
  getDevice arg schedule self
  = match _devices self !! key with
    | Some d => (self, Settled (Return (Some d)))
    | None =>
        match schedule with
        | [] => (self, Suspended)
        | tk :: schedule' => getDevice arg schedule' (runTick tk self)
        end
    end.
Proof.
  intros Hkey. destruct schedule as [|tk schedule];
    cbn [getDevice]; unfold hasDevice, device; rewrite Hkey;
    cbv [mbind completion_bind JS.bind];
    destruct (_devices self !! key) as [d|] eqn:Hd.
  - by rewrite bool_decide_eq_true_2 by eauto.
  - by rewrite bool_decide_eq_false_2 by (by intros [? ?]).
  - by rewrite bool_decide_eq_true_2 by eauto.
  - by rewrite bool_decide_eq_false_2 by (by intros [? ?]).
Qed.

Lemma runTick_snoc tk info self :
  runTick (tk ++ [info]) self = (addDevice info (runTick tk self)).1.
Proof. unfold runTick. by rewrite fold_left_app. Qed.

Lemma runTick_lookup_other key tk : ∀ self,
  (∀ info, info ∈ tk → addedKey info ≠ key) →
  _devices (runTick tk self) !! key = _devices self !! key.
Proof.
  induction tk as [|info tk IH]; intros self Hne; [done|].
  cbn [runTick fold_left]. fold (runTick tk (addDevice info self).1).
  rewrite IH by (intros i Hi; apply Hne; by right).
  cbn [addDevice fst _devices]. apply lookup_insert_ne.
  apply Hne. by left.
Qed.

Lemma runTick_lookup_added key tk : ∀ self info,
  info ∈ tk → addedKey info = key →
  ∃ info', info' ∈ tk ∧ addedKey info' = key
           ∧ _devices (runTick tk self) !! key = Some (newDeviceOf info').
Proof.
  induction tk as [|x tk IH] using rev_ind; intros self info Hin Hkey.
  - by apply elem_of_nil in Hin.
  - rewrite runTick_snoc. cbn [addDevice fst _devices].
    destruct (decide (addedKey x = key)) as [Hx|Hx].
    + exists x. split; [apply elem_of_app; right; by left|]. split; [done|].
      unfold addedKey in Hx. cbn [deviceId newDeviceOf]. rewrite Hx.
      apply lookup_insert_eq.
    + apply elem_of_app in Hin as [Hin|Hin].
      * destruct (IH self info Hin Hkey) as (info' & Hin' & Hk' & Hl).
        exists info'. split; [apply elem_of_app; by left|]. split; [done|].
        rewrite lookup_insert_ne; [done|]. exact Hx.
      * apply list_elem_of_singleton in Hin. by subst.
Qed.

Lemma neverAdded_cons key tk schedule :
  neverAdded key (tk :: schedule) →
  (∀ info, info ∈ tk → addedKey info ≠ key) ∧ neverAdded key schedule.
Proof.
  intros Hn. split.
  - intros info Hin. apply (Hn tk info); [by left|done].
  - intros tk' info Htk Hin. apply (Hn tk' info); [by right|done].
Qed.

(** While nothing is stored under the key the promise stays pending. *)
Lemma getDevice_suspended arg key schedule : ∀ self,
  keyOf arg = Return key →
  _devices self !! key = None →
  neverAdded key schedule →
  ∃ self', getDevice arg schedule self = (self', Suspended)
           ∧ _devices self' !! key = None.
Proof.
  induction schedule as [|tk schedule IH]; intros self Hkey Hnone Hnever;
    rewrite (getDevice_unfold arg key) by done; rewrite Hnone.
  - by exists self.
  - apply neverAdded_cons in Hnever as [Htk Hnever].
    apply IH; [done| |done]. by rewrite runTick_lookup_other.
Qed.

(** C7: the three forms of an identity built from one 16-byte token are
    looked up under the same dashed-hex key; [getDevice] stays suspended
    for as long as no device is stored under the key; and as soon as an
    [addDevice] stores one during some sleep of the caller, the same call
    settles with the device that [addDevice] created. *)
Theorem getDevice_waits_for_addDevice :
  (∀ token,
      length token = 16%nat →
      keyOf (OfBytes token) = Return (DeviceId.dashed (DeviceId.toHex token))
      ∧ keyOf (OfDeviceId (DeviceId.new token))
        = Return (DeviceId.dashed (DeviceId.toHex token))
      ∧ keyOf (OfString (DeviceId.string (DeviceId.new token)))
        = Return (DeviceId.dashed (DeviceId.toHex token)))
  ∧ (∀ arg key schedule self,
      keyOf arg = Return key →
      _devices self !! key = None →
      neverAdded key schedule →
      (getDevice arg schedule self).2 = Suspended)
  ∧ (∀ arg key before tk after self info,
      keyOf arg = Return key →
      _devices self !! key = None →
      neverAdded key before →
      info ∈ tk → addedKey info = key →
      ∃ self' info',
        getDevice arg (before ++ tk :: after) self
        = (self', Settled (Return (Some (newDeviceOf info'))))
        ∧ info' ∈ tk ∧ addedKey info' = key
        ∧ _devices self' !! key = Some (newDeviceOf info')).
Proof.
  split; [|split].
  - intros token Hlen. split; [|done].
    cbn [keyOf]. rewrite deviceString_dashed by lia. done.
  - intros arg key schedule self Hkey Hnone Hnever.
    destruct (getDevice_suspended arg key schedule self) as (self' & -> & _); done.
  - intros arg key before. induction before as [|tk0 before IH];
      intros tk after self info Hkey Hnone Hnever Hin Hadd.
    + cbn [app]. rewrite (getDevice_unfold arg key) by done. rewrite Hnone.
      destruct (runTick_lookup_added key tk self info Hin Hadd)
        as (info' & Hin' & Hk' & Hl).
      rewrite (getDevice_unfold arg key) by done. rewrite Hl.
      by exists (runTick tk self), info'.
    + cbn [app]. rewrite (getDevice_unfold arg key) by done. rewrite Hnone.
      apply neverAdded_cons in Hnever as [Htk0 Hnever].
      apply (IH tk after _ info); try done.
      by rewrite runTick_lookup_other.
Qed.

Lemma getDevice_waits_for_addDevice_witness :
  (keyOf (OfBytes sampleToken) = Return (DeviceId.dashed (DeviceId.toHex sampleToken))
   ∧ keyOf (OfDeviceId (DeviceId.new sampleToken))
     = Return (DeviceId.dashed (DeviceId.toHex sampleToken))
   ∧ keyOf (OfString (DeviceId.string (DeviceId.new sampleToken)))
     = Return (DeviceId.dashed (DeviceId.toHex sampleToken)))
  ∧ (getDevice (OfBytes sampleToken) [[]; [otherInfo]; []] Devices.new).2 = Suspended
  ∧ (∃ self' info',
      getDevice (OfBytes sampleToken) ([[]; [otherInfo]] ++ [sampleInfo] :: [[]]) Devices.new
      = (self', Settled (Return (Some (newDeviceOf info'))))
      ∧ info' ∈ [sampleInfo]
      ∧ addedKey info' = "01020304-0506-0708-090a-0b0c0d0e0fff"
      ∧ _devices self' !! "01020304-0506-0708-090a-0b0c0d0e0fff"
        = Some (newDeviceOf info')).
Proof.
  assert (Hnever : ∀ schedule,
             schedule ⊆ [[]; [otherInfo]; []] →
             neverAdded "01020304-0506-0708-090a-0b0c0d0e0fff" schedule).
  { intros schedule Hsub tk info Htk Hin. apply Hsub in Htk.
    repeat (apply elem_of_cons in Htk as [->|Htk]);
      try (by apply elem_of_nil in Hin); try (by apply elem_of_nil in Htk).
    apply list_elem_of_singleton in Hin. subst. by vm_compute. }
  split; [|split].
  - apply (proj1 getDevice_waits_for_addDevice sampleToken). reflexivity.
  - apply (proj1 (proj2 getDevice_waits_for_addDevice) (OfBytes sampleToken)
             "01020304-0506-0708-090a-0b0c0d0e0fff");
      [reflexivity | reflexivity | by apply Hnever].
  - apply (proj2 (proj2 getDevice_waits_for_addDevice) (OfBytes sampleToken)
             "01020304-0506-0708-090a-0b0c0d0e0fff" [[]; [otherInfo]] [sampleInfo] [[]]
             Devices.new sampleInfo);
      [reflexivity | reflexivity | | by left | reflexivity].
    apply Hnever. intros x Hx.
    repeat (apply elem_of_cons in Hx as [->|Hx]); [by left | right; by left |].
    by apply elem_of_nil in Hx.
Defined.

End DevicesRegistry.

(** * Properties of the connection orchestrator *)

Section Orchestrator.

Import JS Types StageLinqDevices StageLinqDevicesSpec.

(** The connect routine touches neither the discovery status nor the
    options. *)
Lemma connectToPlayer_frame connectionInfo net self :
  discoveryStatus (connectToPlayer connectionInfo net self).1 = discoveryStatus self
  ∧ options (connectToPlayer connectionInfo net self).1 = options self.
Proof.
  unfold connectToPlayer.
  destruct (socketConnects _); [|done]. cbn [negb].
  destruct (fileTransfer _); [|done].
  cbn [options setDevices enterConnect].
  destruct (downloadDbSources _ && negb _); [done|].
  destruct (negb (stateMapConnects _)); done.
Qed.

(** The retry loop keeps the options and every status entry but that of
    the device it connects, which it either leaves or sets to CONNECTED. *)
Lemma retryLoop_frame connectionInfo net fuel : ∀ attempt self,
  options (retryLoop fuel attempt connectionInfo net self).1 = options self
  ∧ (∀ key, key ≠ deviceId connectionInfo →
       discoveryStatus (retryLoop fuel attempt connectionInfo net self).1 !! key
       = discoveryStatus self !! key)
  ∧ match (retryLoop fuel attempt connectionInfo net self).2 with
    | Returned =>
        discoveryStatus (retryLoop fuel attempt connectionInfo net self).1
          !! deviceId connectionInfo = Some CONNECTED
    | _ =>
        discoveryStatus (retryLoop fuel attempt connectionInfo net self).1
          !! deviceId connectionInfo
        = discoveryStatus self !! deviceId connectionInfo
    end.
Proof.
  induction fuel as [|fuel IH]; intros attempt self; cbn [retryLoop];
    destruct (attempt <? maxRetries (options self)); try done.
  destruct (connectToPlayer_frame connectionInfo net self) as [Hs Ho].
  destruct (connectToPlayer connectionInfo net self) as [self1 [[]|e]];
    cbn [fst snd] in *.
  - cbn [emit setStatus options discoveryStatus fst snd].
    split; [done|]. split.
    + intros key Hne. rewrite lookup_insert_ne by done. by rewrite Hs.
    + apply lookup_insert_eq.
  - destruct (IH (attempt + 1) self1) as (Ho' & Hk' & Hx').
    rewrite Ho', Ho. split; [done|]. split.
    + intros key Hne. rewrite Hk' by done. by rewrite Hs.
    + destruct (retryLoop fuel (attempt + 1) connectionInfo net self1).2;
        rewrite Hx'; by rewrite ?Hs.
Qed.

(** The fuel that [handleDevice] gives the loop is enough. *)
Lemma retryLoop_fuel connectionInfo net fuel : ∀ attempt self,
  (Z.to_nat (maxRetries (options self) - attempt) ≤ fuel)%nat →
  (retryLoop fuel attempt connectionInfo net self).2 ≠ OutOfFuel.
Proof.
  induction fuel as [|fuel IH]; intros attempt self Hfuel; cbn [retryLoop];
    destruct (Z.ltb_spec attempt (maxRetries (options self))); try done; [lia|].
  destruct (connectToPlayer_frame connectionInfo net self) as [_ Ho].
  destruct (connectToPlayer connectionInfo net self) as [self1 [[]|e]];
    cbn [fst snd] in *; [done|].
  apply IH. rewrite Ho. lia.
Qed.

Lemma status_cases (o : option ConnectionStatus) :
  o = None ∨ o = Some CONNECTED ∨ o = Some CONNECTING ∨ o = Some FAILED.
Proof. destruct o as [[]|]; auto. Qed.

(** An announcement of a handled or ignored device changes nothing. *)
Lemma handleDevice_skips connectionInfo net self :
  discoveryStatus self !! deviceId connectionInfo = Some CONNECTED
  ∨ discoveryStatus self !! deviceId connectionInfo = Some CONNECTING
  ∨ discoveryStatus self !! deviceId connectionInfo = Some FAILED
  ∨ isIgnored connectionInfo self = true →
  handleDevice connectionInfo net self = (self, Return tt).
Proof.
  intros H. unfold handleDevice, isConnected, isConnecting, isFailed.
  destruct H as [H|[H|[H|H]]]; rewrite H; repeat case_bool_decide;
    try done; by rewrite ?orb_true_r.
Qed.

(** An announcement of an unseen device that is not ignored: the loop
    runs, and the call ends with the device CONNECTED, or with an error
    and the device FAILED. *)
Lemma handleDevice_proceeds connectionInfo net self :
  discoveryStatus self !! deviceId connectionInfo = None →
  isIgnored connectionInfo self = false →
  options (handleDevice connectionInfo net self).1 = options self
  ∧ (∀ key, key ≠ deviceId connectionInfo →
       discoveryStatus (handleDevice connectionInfo net self).1 !! key
       = discoveryStatus self !! key)
  ∧ ((handleDevice connectionInfo net self).2 = Return tt
     ∧ discoveryStatus (handleDevice connectionInfo net self).1
         !! deviceId connectionInfo = Some CONNECTED
     ∨ (handleDevice connectionInfo net self).2
       = Throw (Error (String.append "Could not connect to " (deviceId connectionInfo)))
       ∧ discoveryStatus (handleDevice connectionInfo net self).1
           !! deviceId connectionInfo = Some FAILED).
Proof.
  intros Hnone Hign. unfold handleDevice, isConnected, isConnecting, isFailed.
  rewrite Hnone, Hign. repeat case_bool_decide; try done. cbn [orb].
  set (self0 := setStatus (deviceId connectionInfo) CONNECTING self).
  pose proof (retryLoop_frame connectionInfo net
                (Z.to_nat (maxRetries (options self0) - 1)) 1 self0) as (Ho & Hk & Hx).
  pose proof (retryLoop_fuel connectionInfo net
                (Z.to_nat (maxRetries (options self0) - 1)) 1 self0 (Nat.le_refl _)) as Hf.
  destruct (retryLoop _ 1 connectionInfo net self0) as [self1 []]; cbn [fst snd] in *.
  - split; [done|]. split; [|by left].
    intros key Hne. rewrite Hk by done. by apply lookup_insert_ne.
  - split; [done|]. split; [|right; split; [done|apply lookup_insert_eq]].
    intros key Hne. cbn [setStatus discoveryStatus].
    rewrite lookup_insert_ne by done. rewrite Hk by done. by apply lookup_insert_ne.
  - done.
Qed.

(** No call of [handleDevice] changes the options or an entry that is
    already in the discovery-status map. *)
Lemma handleDevice_keeps connectionInfo net self :
  options (handleDevice connectionInfo net self).1 = options self
  ∧ ∀ key s, discoveryStatus self !! key = Some s →
             discoveryStatus (handleDevice connectionInfo net self).1 !! key = Some s.
Proof.
  destruct (status_cases (discoveryStatus self !! deviceId connectionInfo))
    as [Hnone|Hsome].
  - destruct (isIgnored connectionInfo self) eqn:Hign.
    + rewrite handleDevice_skips by auto. done.
    + destruct (handleDevice_proceeds connectionInfo net self Hnone Hign) as (Ho & Hk & _).
      split; [done|]. intros key s Hs. rewrite Hk; [done|]. congruence.
  - rewrite handleDevice_skips by tauto. done.
Qed.

Lemma call_keeps net c self :
  options (call net c self) = options self
  ∧ ∀ key s, discoveryStatus self !! key = Some s →
             discoveryStatus (call net c self) !! key = Some s.
Proof.
  destruct c as [connectionInfo| |ipAddress path]; cbn [call]; [|done|done].
  apply handleDevice_keeps.
Qed.

Lemma run_keeps net cs : ∀ self,
  options (run net cs self) = options self
  ∧ ∀ key s, discoveryStatus self !! key = Some s →
             discoveryStatus (run net cs self) !! key = Some s.
Proof.
  induction cs as [|c cs IH]; intros self; [done|].
  cbn [run fold_left]. fold (run net cs (call net c self)).
  destruct (call_keeps net c self) as [Ho Hk].
  destruct (IH (call net c self)) as [Ho' Hk'].
  split; [congruence|]. intros key s Hs. by apply Hk', Hk.
Qed.

(** The identity string depends on the address, the port, the source
    and the software name only. *)
Lemma deviceId_sameIdentity a b : sameIdentity a b → deviceId a = deviceId b.
Proof. intros (Ha & Hp & Hs & Hn). unfold deviceId. by rewrite Ha, Hp, Hs, Hn. Qed.

(** C4: an announcement whose identity is already CONNECTED, CONNECTING
    or FAILED, or which the ignore predicate matches, returns with the
    object as it was: no run of the connect routine, no change of the
    discovery-status map or of the tracked devices.  In particular an
    announcement with the same (address, port, source, software name) as
    one that is CONNECTING does nothing. *)
Theorem handleDevice_noop_when_handled_or_ignored :
  ∀ connectionInfo net self,
    discoveryStatus self !! deviceId connectionInfo = Some CONNECTED
    ∨ discoveryStatus self !! deviceId connectionInfo = Some CONNECTING
    ∨ discoveryStatus self !! deviceId connectionInfo = Some FAILED
    ∨ isIgnored connectionInfo self = true →
    handleDevice connectionInfo net self = (self, Return tt)
    ∧ connectCalls (handleDevice connectionInfo net self).1 = connectCalls self
    ∧ discoveryStatus (handleDevice connectionInfo net self).1 = discoveryStatus self
    ∧ devices (handleDevice connectionInfo net self).1 = devices self
    ∧ ∀ second,
        sameIdentity connectionInfo second →
        discoveryStatus self !! deviceId connectionInfo = Some CONNECTING →
        handleDevice second net self = (self, Return tt).
Proof.
  intros connectionInfo net self H.
  rewrite handleDevice_skips by done. repeat split.
  intros second Hsame Hconn. apply handleDevice_skips.
  right. left. by rewrite <- (deviceId_sameIdentity _ _ Hsame).
Qed.

Lemma handleDevice_noop_when_handled_or_ignored_witness :
  handleDevice player1 reachable (setStatus (deviceId player1) CONNECTING (new retry3))
  = (setStatus (deviceId player1) CONNECTING (new retry3), Return tt)
  ∧ connectCalls
      (handleDevice player1 reachable
         (setStatus (deviceId player1) CONNECTING (new retry3))).1 = []
  ∧ discoveryStatus
      (handleDevice player1 reachable
         (setStatus (deviceId player1) CONNECTING (new retry3))).1
    = {[ deviceId player1 := CONNECTING ]}
  ∧ devices
      (handleDevice player1 reachable
         (setStatus (deviceId player1) CONNECTING (new retry3))).1 = ∅
  ∧ ∀ second,
      sameIdentity player1 second →
      discoveryStatus (setStatus (deviceId player1) CONNECTING (new retry3))
        !! deviceId player1 = Some CONNECTING →
      handleDevice second reachable (setStatus (deviceId player1) CONNECTING (new retry3))
      = (setStatus (deviceId player1) CONNECTING (new retry3), Return tt).
Proof.
  apply (handleDevice_noop_when_handled_or_ignored player1 reachable
           (setStatus (deviceId player1) CONNECTING (new retry3))).
  right. left. apply lookup_insert_eq.
Defined.

(** C8: for a tracked address [downloadFile] is the [getFile] of that
    device's file-transfer service, and so returns the file that service
    returns; for an address that is not tracked it throws. *)
Theorem downloadFile_delegates_or_throws :
  ∀ self ipAddress path,
    match devices self !! ipAddress with
    | Some device =>
        downloadFile ipAddress path self = getFile (fileTransferService device) path
    | None => downloadFile ipAddress path self = Throw TypeError
    end.
Proof.
  intros self ipAddress path. unfold downloadFile.
  destruct (devices self !! ipAddress) as [device|]; [|done].
  by destruct (getFile (fileTransferService device) path).
Qed.

(** C3, at the input where the code departs from it: with [maxRetries]
    3 and a network on which every attempt fails, the connect routine
    runs twice (attempts 1 and 2), then the identity is FAILED and the
    call throws. *)
Theorem handleDevice_maxRetries_3_connects_twice :
  connectCalls (handleDevice player1 unreachable (new retry3)).1 = [player1; player1]
  ∧ discoveryStatus (handleDevice player1 unreachable (new retry3)).1
      !! deviceId player1 = Some FAILED
  ∧ (handleDevice player1 unreachable (new retry3)).2
    = Throw (Error "Could not connect to 192.168.1.20:51337:[sc6000/JP14]").
Proof. by vm_compute. Qed.

(** On a network where no socket connects, the loop entered with
    counter [attempt] runs the connect routine [maxRetries - attempt]
    times and is left by its condition. *)
Lemma retryLoop_all_fail connectionInfo net fuel : ∀ attempt self,
  (∀ k, socketConnects (net k) = false) →
  (Z.to_nat (maxRetries (options self) - attempt) ≤ fuel)%nat →
  (retryLoop fuel attempt connectionInfo net self).2 = Exhausted
  ∧ connectCalls (retryLoop fuel attempt connectionInfo net self).1
    = connectCalls self
      ++ replicate (Z.to_nat (maxRetries (options self) - attempt)) connectionInfo.
Proof.
  intros attempt self Hnet. revert attempt self.
  induction fuel as [|fuel IH]; intros attempt self Hfuel; cbn [retryLoop];
    destruct (Z.ltb_spec attempt (maxRetries (options self))) as [Hlt|Hge].
  - lia.
  - replace (Z.to_nat (maxRetries (options self) - attempt)) with 0%nat by lia.
    cbn [replicate fst snd]. by rewrite app_nil_r.
  - unfold connectToPlayer. rewrite Hnet. cbn [negb fst snd].
    destruct (IH (attempt + 1) (enterConnect connectionInfo self)) as [Hx Hc].
    { cbn [enterConnect options]. lia. }
    split; [done|]. rewrite Hc. cbn [enterConnect options connectCalls].
    replace (Z.to_nat (maxRetries (options self) - attempt))
      with (S (Z.to_nat (maxRetries (options self) - (attempt + 1)))) by lia.
    cbn [replicate]. by rewrite <- app_assoc.
  - replace (Z.to_nat (maxRetries (options self) - attempt)) with 0%nat by lia.
    cbn [replicate fst snd]. by rewrite app_nil_r.
Qed.

(** The number of connection attempts of a call whose attempts all
    fail is [maxRetries - 1], not [maxRetries]. *)
Lemma handleDevice_all_fail connectionInfo net self :
  (∀ k, socketConnects (net k) = false) →
  discoveryStatus self !! deviceId connectionInfo = None →
  isIgnored connectionInfo self = false →
  connectCalls (handleDevice connectionInfo net self).1
  = connectCalls self
    ++ replicate (Z.to_nat (maxRetries (options self) - 1)) connectionInfo.
Proof.
  intros Hnet Hnone Hign. unfold handleDevice, isConnected, isConnecting, isFailed.
  rewrite Hnone, Hign. repeat case_bool_decide; try done. cbn [orb].
  set (self0 := setStatus (deviceId connectionInfo) CONNECTING self).
  destruct (retryLoop_all_fail connectionInfo net
              (Z.to_nat (maxRetries (options self0) - 1)) 1 self0 Hnet (Nat.le_refl _))
    as [Hx Hc].
  destruct (retryLoop _ 1 connectionInfo net self0) as [self1 x]; cbn [fst snd] in *.
  subst x. cbn [fst setStatus connectCalls]. by rewrite Hc.
Qed.

(** C5, as the code has it: once a call has ended with the error of the
    exhausted retries, the identity is FAILED, and every later
    announcement of the same identity, whatever calls came in between
    and however the network answers by then, returns at once: the entry
    stays FAILED and the connect routine is not run. *)
Theorem handleDevice_failed_identity_stays_failed :
  ∀ connectionInfo net self e,
    (handleDevice connectionInfo net self).2 = Throw e →
    discoveryStatus (handleDevice connectionInfo net self).1
      !! deviceId connectionInfo = Some FAILED
    ∧ ∀ later net' net'' second,
        sameIdentity connectionInfo second →
        handleDevice second net''
          (run net' later (handleDevice connectionInfo net self).1)
        = (run net' later (handleDevice connectionInfo net self).1, Return tt).
Proof.
  intros connectionInfo net self e Hthrow.
  assert (Hfailed : discoveryStatus (handleDevice connectionInfo net self).1
                      !! deviceId connectionInfo = Some FAILED).
  { destruct (status_cases (discoveryStatus self !! deviceId connectionInfo))
      as [Hnone|Hsome].
    - destruct (isIgnored connectionInfo self) eqn:Hign.
      + rewrite handleDevice_skips in Hthrow by auto. done.
      + destruct (handleDevice_proceeds connectionInfo net self Hnone Hign)
          as (_ & _ & [[Hr _]|[_ Hf]]); [congruence|done].
    - rewrite handleDevice_skips in Hthrow by tauto. done. }
  split; [done|]. intros later net' net'' second Hsame.
  apply handleDevice_skips. right. right. left.
  rewrite <- (deviceId_sameIdentity _ _ Hsame).
  by apply run_keeps.
Qed.

Lemma handleDevice_failed_identity_stays_failed_witness :
  discoveryStatus (handleDevice player1 unreachable (new retry3)).1
    !! deviceId player1 = Some FAILED
  ∧ ∀ later net' net'' second,
      sameIdentity player1 second →
      handleDevice second net''
        (run net' later (handleDevice player1 unreachable (new retry3)).1)
      = (run net' later (handleDevice player1 unreachable (new retry3)).1, Return tt).
Proof.
  apply (handleDevice_failed_identity_stays_failed player1 unreachable (new retry3)
           (Error "Could not connect to 192.168.1.20:51337:[sc6000/JP14]")).
  reflexivity.
Defined.

(** C5 as the specification words it does not hold: [player1] failed on
    the unreachable network and is announced again when the network is
    reachable; the entry is still FAILED, not CONNECTING or CONNECTED,
    and the connect routine was not run again. *)
Lemma handleDevice_failed_identity_not_restarted :
  discoveryStatus afterFailure !! deviceId player1 = Some FAILED
  ∧ handleDevice player1 reachable afterFailure = (afterFailure, Return tt)
  ∧ discoveryStatus (handleDevice player1 reachable afterFailure).1 !! deviceId player1
    ≠ Some CONNECTING
  ∧ connectCalls (handleDevice player1 reachable afterFailure).1
    = connectCalls afterFailure.
Proof. by vm_compute. Qed.

(** Folding to upper case, as the regular expression does, identifies
    the same characters as folding to lower case. *)
Lemma canonicalize_toLower a b :
  Ascii.eqb (canonicalize a) (canonicalize b) = true ↔ toLower a = toLower b.
Proof.
  rewrite Ascii.eqb_eq.
  assert (Hinj : ∀ x y : ascii, x = y ↔ nat_of_ascii x = nat_of_ascii y).
  { intros x y. split; [by intros ->|].
    intros H. by rewrite <- (ascii_nat_embedding x), <- (ascii_nat_embedding y), H. }
  rewrite (Hinj (canonicalize a)), (Hinj (toLower a)).
  unfold canonicalize, toLower.
  pose proof (nat_ascii_bounded a) as Ha. pose proof (nat_ascii_bounded b) as Hb.
  destruct (Nat.leb_spec 97 (nat_of_ascii a)), (Nat.leb_spec (nat_of_ascii a) 122),
    (Nat.leb_spec 65 (nat_of_ascii a)), (Nat.leb_spec (nat_of_ascii a) 90),
    (Nat.leb_spec 97 (nat_of_ascii b)), (Nat.leb_spec (nat_of_ascii b) 122),
    (Nat.leb_spec 65 (nat_of_ascii b)), (Nat.leb_spec (nat_of_ascii b) 90);
    cbn [andb]; rewrite ?nat_ascii_embedding by lia; lia.
Qed.

Lemma testPrefixI_spec pattern : ∀ s,
  testPrefixI pattern s = true ↔ hasPrefixIgnoringCase pattern s.
Proof.
  unfold hasPrefixIgnoringCase.
  induction pattern as [|p pattern IH]; intros s; cbn [testPrefixI].
  - split; [|done]. intros _. by exists EmptyString, s.
  - destruct s as [|c s].
    + split; [done|]. intros ([|c' pre] & rest & Hs & Hl); done.
    + rewrite andb_true_iff, canonicalize_toLower, IH. split.
      * intros (Hc & pre & rest & -> & Hl).
        exists (String c pre), rest. split; [done|].
        cbn [lower]. by rewrite Hl, Hc.
      * intros ([|c' pre] & rest & Hs & Hl); [done|].
        cbn [String.append lower] in Hs, Hl.
        injection Hs as -> ->. injection Hl as Hc Hl.
        split; [congruence|]. by exists pre, rest.
Qed.

(** C6: the ignore predicate of the code is the policy of the
    specification, and an announcement it matches returns at once
    whatever the discovery-status map holds: the connect routine is not
    run. *)
Theorem isIgnored_is_the_ignore_policy :
  ∀ connectionInfo self,
    (isIgnored connectionInfo self = true
     ↔ ignoredBySpec (actingAs_source (actingAs (options self))) connectionInfo)
    ∧ (isIgnored connectionInfo self = true →
       ∀ net, handleDevice connectionInfo net self = (self, Return tt)
              ∧ connectCalls (handleDevice connectionInfo net self).1
                = connectCalls self).
Proof.
  intros connectionInfo self. split.
  - unfold isIgnored, ignoredBySpec.
    rewrite !orb_true_iff, !String.eqb_eq, !testPrefixI_spec. tauto.
  - intros Hign net. rewrite handleDevice_skips by auto. done.
Qed.

Lemma isIgnored_is_the_ignore_policy_witness :
  (isIgnored soundSwitch afterFailure = true
   ↔ ignoredBySpec (actingAs_source (actingAs (options afterFailure))) soundSwitch)
  ∧ ∀ net, handleDevice soundSwitch net afterFailure = (afterFailure, Return tt)
           ∧ connectCalls (handleDevice soundSwitch net afterFailure).1
             = connectCalls afterFailure.
Proof.
  split.
  - apply (isIgnored_is_the_ignore_policy soundSwitch afterFailure).
  - apply (proj2 (isIgnored_is_the_ignore_policy soundSwitch afterFailure)).
    reflexivity.
Defined.



End Orchestrator.

(** * Further properties of the beat-info service *)

Section BeatInfoMore.

Import JS Number BeatInfo BeatInfoSpec BeatInfoRuns.

(** When the loop over the players answers [true], some player crossed. *)
Lemma checkPlayers_true n : ∀ i opts (cur msg : list playerBeatData) h,
  checkPlayers n i opts cur msg h = Return true →
  h = true ∨ ∃ o j, opts = Some o ∧ crossedAt o cur msg j.
Proof.
  induction n as [|n IH]; intros i opts cur msg h; cbn [checkPlayers].
  - intros [= ->]. by left.
  - destruct opts as [o|]; [|done].
    destruct (cur !! i) as [c|] eqn:Hc; [|done].
    destruct (msg !! i) as [p|] eqn:Hp; [|done].
    intros Hr. apply IH in Hr as [Hh|Hx]; [|by right].
    destruct (resCheck (everyNBeats o) (beat c) (beat p)) eqn:Hres; [|by left].
    right. exists o, i. split; [done|]. by exists c, p.
Qed.

Lemma checkPlayers_self_not_true n i opts (msg : list playerBeatData) :
  checkPlayers n i opts msg msg false ≠ Return true.
Proof.
  intros Hr. apply checkPlayers_true in Hr as [?|(o & j & _ & c & p & Hc & Hp & Hx)];
    [done|].
  rewrite Hc in Hp. simplify_eq. by rewrite resCheck_same in Hx.
Qed.

(** One call of the handler with a listener registered: the object is
    left as it was, or the message was cached and handed to the
    listener. *)
Lemma messageHandler_step cb p_data self :
  _userBeatCallback self = Some cb →
  (messageHandler p_data self).1 = self
  ∨ ∃ d msg, p_data = Some d ∧ message d = Some msg
             ∧ (messageHandler p_data self).1 = forwarded cb msg self.
Proof.
  intros Hcb. destruct p_data as [d|]; [|by left].
  destruct self as [ucb uo ucur w cs]; cbn in Hcb; subst ucb.
  unfold messageHandler. destruct (message d) as [msg|] eqn:Hm; [|by left].
  destruct ucur as [cur|]; cbn.
  - destruct (checkPlayers _ 0 uo (player cur) (player msg) false) as [[]|e];
      [right; by exists d, msg | by left | by left].
  - destruct (checkPlayers _ 0 uo (player msg) (player msg) false) as [[]|e] eqn:Hc;
      [by apply checkPlayers_self_not_true in Hc
      | right; by exists d, msg | right; by exists d, msg].
Qed.

(** X1: one call of the handler calls the listener at most once, and a
    call of the listener is for the incoming message, which is then the
    cached one. *)
Theorem messageHandler_calls_listener_at_most_once :
  ∀ p_data self,
    calls (messageHandler p_data self).1 = calls self
    ∨ ∃ cb d msg,
        _userBeatCallback self = Some cb
        ∧ p_data = Some d ∧ message d = Some msg
        ∧ calls (messageHandler p_data self).1 = calls self ++ [(cb, msg)]
        ∧ _currentBeatData (messageHandler p_data self).1 = Some msg.
Proof.
  intros p_data self. destruct (_userBeatCallback self) as [cb|] eqn:Hcb.
  - destruct (messageHandler_step cb p_data self Hcb) as [->|(d & msg & Hd & Hm & ->)];
      [by left|].
    right. by exists cb, d, msg.
  - left. destruct p_data as [d|]; [|done].
    destruct self as [ucb uo ucur w cs]; cbn in Hcb; subst ucb.
    unfold messageHandler. destruct (message d) as [msg|]; [|done].
    destruct ucur as [cur|]; cbn; [|done].
    by destruct (checkPlayers _ 0 uo (player cur) (player msg) false) as [[]|e].
Qed.

(** X2: with a listener registered, the cached message is always the
    last message handed to the listener, whatever payloads arrive and
    whichever calls throw. *)
Theorem cache_is_last_forwarded :
  ∀ payloads self,
    is_Some (_userBeatCallback self) →
    _currentBeatData self = lastForwarded self →
    _currentBeatData (handleAll payloads self) = lastForwarded (handleAll payloads self)
    ∧ _userBeatCallback (handleAll payloads self) = _userBeatCallback self.
Proof.
  induction payloads as [|p payloads IH]; intros self [cb Hcb] Hinv; [done|].
  cbn [handleAll fold_left]. fold (handleAll payloads (messageHandler p self).1).
  destruct (messageHandler_step cb p self Hcb) as [->|(d & msg & _ & _ & ->)].
  - apply IH; [by exists cb|done].
  - destruct (IH (forwarded cb msg self)) as [H1 H2].
    + by exists cb.
    + unfold lastForwarded, forwarded. cbn [_currentBeatData calls].
      by rewrite last_snoc.
    + split; [done|]. by rewrite H2.
Qed.

Lemma cache_is_last_forwarded_witness :
  _currentBeatData
    (handleAll [Some {| id := 0; message := Some twoDecks |}; None;
                Some {| id := 1; message := Some threeDecks |}] every4)
  = lastForwarded
      (handleAll [Some {| id := 0; message := Some twoDecks |}; None;
                  Some {| id := 1; message := Some threeDecks |}] every4)
  ∧ _userBeatCallback
      (handleAll [Some {| id := 0; message := Some twoDecks |}; None;
                  Some {| id := 1; message := Some threeDecks |}] every4)
    = _userBeatCallback every4.
Proof.
  refine (cache_is_last_forwarded
            [Some {| id := 0; message := Some twoDecks |}; None;
             Some {| id := 1; message := Some threeDecks |}] every4 _ _).
  - by eexists.
  - reflexivity.
Defined.

(** When the user's function returns on the incoming message, the
    handler is the one for a returning listener. *)
Lemma messageHandlerWith_returns outcome d msg self :
  message d = Some msg →
  (∀ cb, _userBeatCallback self = Some cb → outcome cb msg = Return tt) →
  messageHandlerWith outcome (Some d) self = messageHandler (Some d) self.
Proof.
  intros Hm Hret. destruct self as [[cb|] uo ucur w cs]; cbn in Hret.
  - specialize (Hret cb eq_refl).
    unfold messageHandlerWith, messageHandler. rewrite Hm.
    destruct ucur as [cur|];
      cbn [callUserBeatCallbackWith callUserBeatCallback setCurrentBeatData
           _userBeatCallback _userBeatOptions _currentBeatData written calls];
      rewrite ?Hret; reflexivity.
  - unfold messageHandlerWith, messageHandler. rewrite Hm.
    by destruct ucur as [cur|].
Qed.

(** [messageHandler] is the handler for a listener that returns on
    every message. *)
Lemma messageHandlerWith_returning p_data self :
  messageHandlerWith returning p_data self = messageHandler p_data self.
Proof.
  destruct p_data as [d|]; [|done].
  destruct (message d) as [msg|] eqn:Hm.
  - by apply (messageHandlerWith_returns returning d msg).
  - unfold messageHandlerWith, messageHandler. by rewrite Hm.
Qed.



(** X4: with a message cached and a listener and options registered, a
    message whose [playerCount] exceeds neither player list is cached
    and handed to the listener exactly when some player below
    [playerCount] crossed a boundary ([resCheck] on the cached and the
    new beat), and the handler then ends as that call of the listener
    ends; otherwise the message is dropped with the object unchanged
    and the handler returns. *)
Theorem later_message_is_forwarded_iff_crossed :
  ∀ outcome self d msg cur cb o,
    message d = Some msg →
    _currentBeatData self = Some cur →
    _userBeatCallback self = Some cb →
    _userBeatOptions self = Some o →
    playerCount msg ≤ Z.of_nat (length (player cur)) →
    playerCount msg ≤ Z.of_nat (length (player msg)) →
    ∃ b : bool,
      messageHandlerWith outcome (Some d) self
      = (if b then forwarded cb msg self else self,
         if b then outcome cb msg else Return tt)
      ∧ (b = true ↔ crossed o cur msg).
Proof.
  intros outcome self d msg cur cb o Hm Hcur Hcb Ho Hlc Hlm.
  destruct self as [ucb uo ucur w cs]; simpl in *; subst.
  unfold messageHandlerWith. rewrite Hm. simpl.
  destruct (checkPlayers_return (Z.to_nat (playerCount msg)) 0 o (player cur) (player msg) false)
    as (b & -> & Hiff); [lia|lia|].
  exists b. split; [by destruct b|].
  rewrite Hiff. unfold crossed. split.
  - intros [?|(j & Hj & Hx)]; [done|]. exists j. split; [lia|done].
  - intros (j & Hj & Hx). right. exists j. split; [lia|done].
Qed.

Lemma later_message_is_forwarded_iff_crossed_witness :
  ∃ b : bool,
    messageHandlerWith throwing (Some {| id := 7; message := Some twoDecks |})
      (forwarded (Listener "onBeat") threeDecks every4)
    = (if b
       then forwarded (Listener "onBeat") twoDecks
              (forwarded (Listener "onBeat") threeDecks every4)
       else forwarded (Listener "onBeat") threeDecks every4,
       if b then throwing (Listener "onBeat") twoDecks else Return tt)
    ∧ (b = true ↔ crossed {| everyNBeats := of_Z 4 |} threeDecks twoDecks).
Proof.
  refine (later_message_is_forwarded_iff_crossed throwing
            (forwarded (Listener "onBeat") threeDecks every4)
            {| id := 7; message := Some twoDecks |} twoDecks threeDecks
            (Listener "onBeat") {| everyNBeats := of_Z 4 |} _ _ _ _ _ _);
    [reflexivity | reflexivity | reflexivity | reflexivity
    | by vm_compute | by vm_compute].
Defined.

(** X5: a message that arrives before any listener is registered makes
    the handler throw a TypeError, yet the message is cached already; so
    when a listener is registered afterwards and the same message
    arrives again, it is dropped and the listener is not called. *)
Theorem message_before_registration_is_cached_not_forwarded :
  ∀ self d msg cb o,
    message d = Some msg →
    _userBeatCallback self = None →
    _currentBeatData self = None →
    playerCount msg ≤ Z.of_nat (length (player msg)) →
    messageHandler (Some d) self = (setCurrentBeatData msg self, Throw TypeError)
    ∧ messageHandler (Some d) (startBeatInfo cb o (setCurrentBeatData msg self))
      = (startBeatInfo cb o (setCurrentBeatData msg self), Return tt).
Proof.
  intros self d msg cb o Hm Hcb Hcur Hlm. split.
  - destruct self as [ucb uo ucur w cs]; cbn in *; subst.
    unfold messageHandler. by rewrite Hm.
  - destruct (messageHandler_cached (startBeatInfo cb o (setCurrentBeatData msg self))
                d msg msg cb o) as (b & -> & Hb); try done.
    destruct b; [|done]. exfalso.
    apply (not_crossed_self o msg). by apply Hb.
Qed.

Lemma message_before_registration_is_cached_not_forwarded_witness :
  messageHandler (Some {| id := 0; message := Some twoDecks |}) new
  = (setCurrentBeatData twoDecks new, Throw TypeError)
  ∧ messageHandler (Some {| id := 0; message := Some twoDecks |})
      (startBeatInfo (Listener "onBeat") {| everyNBeats := of_Z 4 |}
         (setCurrentBeatData twoDecks new))
    = (startBeatInfo (Listener "onBeat") {| everyNBeats := of_Z 4 |}
         (setCurrentBeatData twoDecks new), Return tt).
Proof.
  refine (message_before_registration_is_cached_not_forwarded new
            {| id := 0; message := Some twoDecks |} twoDecks
            (Listener "onBeat") {| everyNBeats := of_Z 4 |} _ _ _ _);
    [reflexivity | reflexivity | reflexivity | by vm_compute].
Defined.

(** X6: [startBeatInfo] registers the listener and the options, hands
    the 8-byte request 00 00 00 04 00 00 00 00 to the socket and keeps
    the cached message; so the first message after subscribing anew is
    compared with the old cache and dropped unless a player crossed a
    boundary: the new listener is not called for it. *)
Theorem startBeatInfo_keeps_the_cache :
  ∀ self cb o cur d msg,
    _currentBeatData self = Some cur →
    message d = Some msg →
    playerCount msg ≤ Z.of_nat (length (player cur)) →
    playerCount msg ≤ Z.of_nat (length (player msg)) →
    ¬ crossed o cur msg →
    written (startBeatInfo cb o self)
    = written self ++ [["000"; "000"; "000"; "004"; "000"; "000"; "000"; "000"]%byte]
    ∧ _currentBeatData (startBeatInfo cb o self) = Some cur
    ∧ messageHandler (Some d) (startBeatInfo cb o self)
      = (startBeatInfo cb o self, Return tt).
Proof.
  intros self cb o cur d msg Hcur Hm Hlc Hlm Hx.
  split; [done|]. split; [done|].
  destruct (messageHandler_cached (startBeatInfo cb o self) d msg cur cb o)
    as (b & -> & Hb); try done.
  destruct b; [|done]. exfalso. by apply Hx, Hb.
Qed.

Lemma startBeatInfo_keeps_the_cache_witness :
  written (startBeatInfo (Listener "second") {| everyNBeats := of_Z 8 |}
             (forwarded (Listener "onBeat") twoDecks every4))
  = written (forwarded (Listener "onBeat") twoDecks every4)
    ++ [["000"; "000"; "000"; "004"; "000"; "000"; "000"; "000"]%byte]
  ∧ _currentBeatData
      (startBeatInfo (Listener "second") {| everyNBeats := of_Z 8 |}
         (forwarded (Listener "onBeat") twoDecks every4)) = Some twoDecks
  ∧ messageHandler (Some {| id := 3; message := Some twoDecks |})
      (startBeatInfo (Listener "second") {| everyNBeats := of_Z 8 |}
         (forwarded (Listener "onBeat") twoDecks every4))
    = (startBeatInfo (Listener "second") {| everyNBeats := of_Z 8 |}
         (forwarded (Listener "onBeat") twoDecks every4), Return tt).
Proof.
  refine (startBeatInfo_keeps_the_cache
            (forwarded (Listener "onBeat") twoDecks every4)
            (Listener "second") {| everyNBeats := of_Z 8 |} twoDecks
            {| id := 3; message := Some twoDecks |} twoDecks _ _ _ _ _);
    [reflexivity | reflexivity | by vm_compute | by vm_compute |].
  apply not_crossed_self.
Defined.

(** X7: the boundary test on degenerate numbers.  A NaN step or a NaN
    beat on either side never counts as a crossing; and with a step of
    zero (of either sign) two finite non-zero beats of the same sign
    never cross, both quotients being the same infinity. *)
Theorem resCheck_nan_and_zero_step_never_cross :
  (∀ a b, resCheck S754_nan a b = false)
  ∧ (∀ res b, resCheck res S754_nan b = false ∧ resCheck res b S754_nan = false)
  ∧ (∀ zs s m1 e1 m2 e2,
       resCheck (S754_zero zs) (S754_finite s m1 e1) (S754_finite s m2 e2) = false).
Proof.
  assert (Hnan_l : ∀ x, geb (sub S754_nan x) (of_Z 1) = false) by (by intros []).
  assert (Hnan_r : ∀ x, geb (sub x S754_nan) (of_Z 1) = false) by (by intros []).
  assert (Hdiv_l : ∀ res, div S754_nan res = S754_nan) by (by intros []).
  assert (Hdiv_r : ∀ x, div x S754_nan = S754_nan) by (by intros []).
  split; [|split].
  - intros a b. unfold resCheck. rewrite !Hdiv_r. cbn [floor]. by rewrite Hnan_l.
  - intros res b. unfold resCheck. rewrite !Hdiv_l. cbn [floor].
    by rewrite !Hnan_l, !Hnan_r.
  - intros zs s m1 e1 m2 e2. unfold resCheck.
    change (div (S754_finite s m1 e1) (S754_zero zs)) with (S754_infinity (xorb s zs)).
    change (div (S754_finite s m2 e2) (S754_zero zs)) with (S754_infinity (xorb s zs)).
    by destruct (xorb s zs).
Qed.

End BeatInfoMore.

(** * Further properties of the beat-info decoder *)

Section BeatInfoParseMore.

Import JS Number BeatInfo Wire BeatInfoSpec BeatInfoRuns.

Lemma read_throw n ctx e : ReadContext.read n ctx = Throw e → e = AssertionError.
Proof.
  unfold ReadContext.read. destruct (_ <=? _)%nat; [done|]. by intros [= <-].
Qed.

Lemma readUInt32_throw ctx e : ReadContext.readUInt32 ctx = Throw e → e = AssertionError.
Proof.
  unfold ReadContext.readUInt32.
  destruct (ReadContext.read 4 ctx) as [[bs c]|e'] eqn:Hr; [done|].
  apply read_throw in Hr as ->. by intros [= <-].
Qed.

Lemma readUInt64_throw ctx e : ReadContext.readUInt64 ctx = Throw e → e = AssertionError.
Proof.
  unfold ReadContext.readUInt64.
  destruct (ReadContext.read 8 ctx) as [[bs c]|e'] eqn:Hr; [done|].
  apply read_throw in Hr as ->. by intros [= <-].
Qed.

Lemma readFloat64_throw ctx e : ReadContext.readFloat64 ctx = Throw e → e = AssertionError.
Proof.
  unfold ReadContext.readFloat64.
  destruct (ReadContext.read 8 ctx) as [[bs c]|e'] eqn:Hr; [done|].
  apply read_throw in Hr as ->. by intros [= <-].
Qed.

Lemma readPlayers_throw n : ∀ ctx acc e,
  readPlayers n ctx acc = Throw e → e = AssertionError.
Proof.
  induction n as [|n IH]; intros ctx acc e; cbn [readPlayers]; [done|].
  destruct (ReadContext.readFloat64 ctx) as [[b c1]|e1] eqn:H1;
    [|apply readFloat64_throw in H1 as ->; by intros [= <-]].
  cbv [mbind completion_bind JS.bind].
  destruct (ReadContext.readFloat64 c1) as [[tb c2]|e2] eqn:H2;
    [|apply readFloat64_throw in H2 as ->; by intros [= <-]].
  destruct (ReadContext.readFloat64 c2) as [[bpm c3]|e3] eqn:H3;
    [|apply readFloat64_throw in H3 as ->; by intros [= <-]].
  apply IH.
Qed.

(** In the second pass the entry written to always exists. *)
Lemma readSamples_throw n : ∀ i ctx (pl : list playerBeatData) e,
  (i + n ≤ length pl)%nat →
  readSamples n i ctx pl = Throw e → e = AssertionError.
Proof.
  induction n as [|n IH]; intros i ctx pl e Hlen; cbn [readSamples]; [done|].
  destruct (ReadContext.readFloat64 ctx) as [[s c1]|e1] eqn:H1;
    [|apply readFloat64_throw in H1 as ->; by intros [= <-]].
  cbv [mbind completion_bind JS.bind].
  destruct (lookup_lt_is_Some_2 pl i) as [p ->]; [lia|].
  apply IH. rewrite length_insert. lia.
Qed.

(** The second pass sets the samples of the entries it visits and
    leaves the entries before them alone. *)
Lemma readSamples_sets n : ∀ i ctx (pl pl' : list playerBeatData) ctx',
  readSamples n i ctx pl = Return (pl', ctx') →
  (∀ j, (j < i)%nat → pl' !! j = pl !! j)
  ∧ (∀ j p, (i ≤ j < i + n)%nat → pl' !! j = Some p → is_Some (samples p)).
Proof.
  induction n as [|n IH]; intros i ctx pl pl' ctx'; cbn [readSamples].
  - intros [= <- <-]. split; [done|]. intros j p Hj. lia.
  - destruct (ReadContext.readFloat64 ctx) as [[s c1]|e1]; [|done].
    cbv [mbind completion_bind JS.bind].
    destruct (pl !! i) as [p0|] eqn:Hp0; [|done].
    intros Hr. apply IH in Hr as [Hbefore Hset]. split.
    + intros j Hj. rewrite Hbefore by lia. apply list_lookup_insert_ne. lia.
    + intros j p Hj Hp. destruct (decide (j = i)) as [->|Hne].
      * rewrite Hbefore in Hp by lia.
        rewrite list_lookup_insert_eq in Hp by (by apply lookup_lt_Some in Hp0).
        injection Hp as <-. by eexists.
      * apply (Hset j); [lia|done].
Qed.

(** What a returned message looks like. *)
Lemma parseData_inv ctx m ctx' :
  parseData ctx = Return (m, ctx') →
  ∃ msg, message m = Some msg
         ∧ 2 ≤ playerCount msg
         ∧ Z.of_nat (length (player msg)) = playerCount msg
         ∧ Forall (λ p, is_Some (samples p)) (player msg)
         ∧ ReadContext.buffer ctx' = ReadContext.buffer ctx
         ∧ ReadContext.isEOF ctx' = true.
Proof.
  unfold parseData.
  destruct (Z.ltb_spec 72 (ReadContext.sizeLeft ctx)) as [Hsize|]; [|done].
  cbv [assert mbind completion_bind JS.bind].
  destruct (ReadContext.readUInt32 ctx) as [[i c1]|] eqn:H1; [|done].
  apply readUInt32_inv in H1 as (_ & -> & _).
  destruct (ReadContext.readUInt64 _) as [[ck c2]|] eqn:H2; [|done].
  apply readUInt64_inv in H2 as [-> _].
  destruct (ReadContext.readUInt32 _) as [[pc c3]|] eqn:H3; [|done].
  apply readUInt32_inv in H3 as (Hpc & -> & _).
  destruct (readPlayers _ _ _) as [[pl c4]|] eqn:H4; [|done].
  apply readPlayers_inv in H4 as [-> Hl4].
  destruct (readSamples _ _ _ _) as [[pl' c5]|] eqn:H5; [|done].
  pose proof (readSamples_sets _ _ _ _ _ _ H5) as [_ Hset].
  apply readSamples_inv in H5 as [-> Hl5].
  destruct (ReadContext.isEOF _) eqn:Heof; [|done].
  intros [= <- <-]. eexists. split; [reflexivity|].
  cbn [playerCount player ReadContext.buffer].
  unfold ReadContext.isEOF in Heof. apply Nat.eqb_eq in Heof.
  cbn [ReadContext.buffer ReadContext.pos length] in *.
  unfold ReadContext.sizeLeft in *.
  split; [lia|]. split; [lia|]. split; [|split; [done|by apply Nat.eqb_eq]].
  apply Forall_lookup. intros j p Hp. apply (Hset j); [|done].
  apply lookup_lt_Some in Hp. lia.
Qed.

Lemma parseData_throw ctx e : parseData ctx = Throw e → e = AssertionError.
Proof.
  unfold parseData.
  destruct (72 <? ReadContext.sizeLeft ctx); [|by intros [= <-]].
  cbv [assert mbind completion_bind JS.bind].
  destruct (ReadContext.readUInt32 ctx) as [[i c1]|e1] eqn:H1;
    [|apply readUInt32_throw in H1 as ->; by intros [= <-]].
  destruct (ReadContext.readUInt64 c1) as [[ck c2]|e2] eqn:H2;
    [|apply readUInt64_throw in H2 as ->; by intros [= <-]].
  destruct (ReadContext.readUInt32 c2) as [[pc c3]|e3] eqn:H3;
    [|apply readUInt32_throw in H3 as ->; by intros [= <-]].
  destruct (readPlayers _ c3 []) as [[pl c4]|e4] eqn:H4;
    [|apply readPlayers_throw in H4 as ->; by intros [= <-]].
  apply readPlayers_inv in H4 as [_ Hl4].
  destruct (readSamples _ 0 c4 pl) as [[pl' c5]|e5] eqn:H5.
  - destruct (ReadContext.isEOF c5); [done|by intros [= <-]].
  - apply readSamples_throw in H5 as ->; [by intros [= <-]|].
    cbn [length] in Hl4. lia.
Qed.

(** X8: every exception of [parseData] is an AssertionError (the second
    pass never writes to a missing player entry), and every message it
    returns has at least two players, exactly [playerCount] player
    entries and the samples of each of them set; a frame of one player
    (48 bytes) is therefore never decoded. *)
Theorem parseData_asserts_or_yields_complete_message :
  ∀ ctx,
    match parseData ctx with
    | Throw e => e = AssertionError
    | Return (m, ctx') =>
        ∃ msg, message m = Some msg
               ∧ 2 ≤ playerCount msg
               ∧ Z.of_nat (length (player msg)) = playerCount msg
               ∧ Forall (λ p, is_Some (samples p)) (player msg)
    end.
Proof.
  intros ctx. destruct (parseData ctx) as [[m ctx']|e] eqn:Hp.
  - destruct (parseData_inv ctx m ctx' Hp) as (msg & Hm & H2 & Hl & Hs & _).
    by exists msg.
  - by apply parseData_throw in Hp.
Qed.



End BeatInfoParseMore.

(** * Further properties of the Devices registry *)

Section DevicesMore.

Import JS Types Devices DevicesSpec RegistrySpec.

Lemma keyOf_forms token form :
  length token = 16%nat → form ∈ formsOf token →
  keyOf form = Return (DeviceId.string (DeviceId.new token)).
Proof.
  intros Hlen Hin. unfold formsOf in Hin.
  repeat (apply elem_of_cons in Hin as [->|Hin]); cbn [keyOf]; try done.
  - apply deviceString_dashed. lia.
  - by apply elem_of_nil in Hin.
Qed.

(** X10: [addDevice] stores a fresh device, with no services, under the
    dashed-hex key of the token, replacing whatever was stored there,
    and emits one [newDevice] event; afterwards [hasDevice] and [device]
    find that device through each form of the identity (raw 16-byte
    token, DeviceId, string), and every other key is as before. *)
Theorem addDevice_then_found_by_every_form :
  ∀ info self,
    length (token info) = 16%nat →
    (addDevice info self).2 = newDeviceOf info
    ∧ services (addDevice info self).2 = ∅
    ∧ (∀ form, form ∈ formsOf (token info) →
         hasDevice form (addDevice info self).1 = Return true
         ∧ device form (addDevice info self).1 = Return (Some (newDeviceOf info)))
    ∧ (∀ key, key ≠ addedKey info →
         _devices (addDevice info self).1 !! key = _devices self !! key)
    ∧ emitted (addDevice info self).1 = emitted self ++ [newDevice (newDeviceOf info)].
Proof.
  intros info self Hlen. split; [done|]. split; [done|]. split; [|split; [|done]].
  - intros form Hin. unfold hasDevice, device.
    rewrite (keyOf_forms (token info)) by done.
    cbv [mbind completion_bind JS.bind]. cbn [addDevice fst _devices deviceId newDeviceOf].
    rewrite lookup_insert_eq. split; [|done].
    by rewrite bool_decide_eq_true_2 by eauto.
  - intros key Hne. cbn [addDevice fst _devices]. by apply lookup_insert_ne.
Qed.

Lemma addDevice_then_found_by_every_form_witness :
  (addDevice sampleInfoMoved (addDevice sampleInfo Devices.new).1).2
  = newDeviceOf sampleInfoMoved
  ∧ services (addDevice sampleInfoMoved (addDevice sampleInfo Devices.new).1).2 = ∅
  ∧ (∀ form, form ∈ formsOf (token sampleInfoMoved) →
       hasDevice form (addDevice sampleInfoMoved (addDevice sampleInfo Devices.new).1).1
       = Return true
       ∧ device form (addDevice sampleInfoMoved (addDevice sampleInfo Devices.new).1).1
         = Return (Some (newDeviceOf sampleInfoMoved)))
  ∧ (∀ key, key ≠ addedKey sampleInfoMoved →
       _devices (addDevice sampleInfoMoved (addDevice sampleInfo Devices.new).1).1 !! key
       = _devices (addDevice sampleInfo Devices.new).1 !! key)
  ∧ emitted (addDevice sampleInfoMoved (addDevice sampleInfo Devices.new).1).1
    = emitted (addDevice sampleInfo Devices.new).1
      ++ [newDevice (newDeviceOf sampleInfoMoved)].
Proof.
  refine (addDevice_then_found_by_every_form sampleInfoMoved
            (addDevice sampleInfo Devices.new).1 _).
  reflexivity.
Defined.

(** X11: a raw identity of fewer than 16 bytes does not match the
    regular expression: [hasDevice], [device] and [hasNewInfo] throw a
    TypeError, and [getDevice] rejects at its first test, without
    waiting, whatever the registry holds or will hold. *)
Theorem raw_identity_shorter_than_16_bytes_throws :
  ∀ a info schedule self,
    (length a < 16)%nat →
    hasDevice (OfBytes a) self = Throw TypeError
    ∧ device (OfBytes a) self = Throw TypeError
    ∧ hasNewInfo (OfBytes a) info self = Throw TypeError
    ∧ getDevice (OfBytes a) schedule self = (self, Settled (Throw TypeError)).
Proof.
  intros a info schedule self Hlen.
  assert (Hhas : hasDevice (OfBytes a) self = Throw TypeError).
  { unfold hasDevice. cbn [keyOf]. by rewrite deviceString_short. }
  assert (Hdev : device (OfBytes a) self = Throw TypeError).
  { unfold device. cbn [keyOf]. by rewrite deviceString_short. }
  split; [done|]. split; [done|]. split.
  - unfold hasNewInfo. by rewrite Hdev.
  - destruct schedule; cbn [getDevice]; by rewrite Hhas.
Qed.

Lemma raw_identity_shorter_than_16_bytes_throws_witness :
  hasDevice (OfBytes (take 15 sampleToken)) (addDevice sampleInfo Devices.new).1
  = Throw TypeError
  ∧ device (OfBytes (take 15 sampleToken)) (addDevice sampleInfo Devices.new).1
    = Throw TypeError
  ∧ hasNewInfo (OfBytes (take 15 sampleToken)) sampleInfo
      (addDevice sampleInfo Devices.new).1 = Throw TypeError
  ∧ getDevice (OfBytes (take 15 sampleToken)) [[sampleInfo]]
      (addDevice sampleInfo Devices.new).1
    = ((addDevice sampleInfo Devices.new).1, Settled (Throw TypeError)).
Proof.
  refine (raw_identity_shorter_than_16_bytes_throws (take 15 sampleToken) sampleInfo
            [[sampleInfo]] (addDevice sampleInfo Devices.new).1 _).
  vm_compute. lia.
Defined.

Lemma hexDigit_inj n m :
  (n < 16)%N → (m < 16)%N → DeviceId.hexDigit n = DeviceId.hexDigit m → n = m.
Proof.
  intros Hn Hm H.
  assert (En : (n = 0 ∨ n = 1 ∨ n = 2 ∨ n = 3 ∨ n = 4 ∨ n = 5 ∨ n = 6 ∨ n = 7
                ∨ n = 8 ∨ n = 9 ∨ n = 10 ∨ n = 11 ∨ n = 12 ∨ n = 13 ∨ n = 14
                ∨ n = 15)%N) by lia.
  assert (Em : (m = 0 ∨ m = 1 ∨ m = 2 ∨ m = 3 ∨ m = 4 ∨ m = 5 ∨ m = 6 ∨ m = 7
                ∨ m = 8 ∨ m = 9 ∨ m = 10 ∨ m = 11 ∨ m = 12 ∨ m = 13 ∨ m = 14
                ∨ m = 15)%N) by lia.
  clear Hn Hm.
  repeat (destruct En as [->|En]); try subst n;
    repeat (destruct Em as [->|Em]); try subst m;
    (reflexivity || discriminate H).
Qed.

Lemma byte_hex_inj (b b' : byte) :
  DeviceId.hexDigit (Byte.to_N b / 16) = DeviceId.hexDigit (Byte.to_N b' / 16) →
  DeviceId.hexDigit (Byte.to_N b mod 16) = DeviceId.hexDigit (Byte.to_N b' mod 16) →
  b = b'.
Proof.
  intros Hhi Hlo.
  pose proof (Byte.to_N_bounded b) as Hb. pose proof (Byte.to_N_bounded b') as Hb'.
  apply hexDigit_inj in Hhi;
    [|apply N.Div0.div_lt_upper_bound; lia|apply N.Div0.div_lt_upper_bound; lia].
  apply hexDigit_inj in Hlo; [|apply N.mod_lt; lia|apply N.mod_lt; lia].
  assert (Heq : Byte.to_N b = Byte.to_N b').
  { rewrite (N.div_mod (Byte.to_N b) 16), (N.div_mod (Byte.to_N b') 16) by lia.
    by rewrite Hhi, Hlo. }
  pose proof (Byte.of_to_N b) as H1. rewrite Heq, Byte.of_to_N in H1. by injection H1.
Qed.

Lemma toHex_inj a : ∀ b, DeviceId.toHex a = DeviceId.toHex b → a = b.
Proof.
  induction a as [|x a IH]; intros [|y b]; cbn [DeviceId.toHex]; try done.
  intros [= Hhi Hlo Hrest]. f_equal; [by apply byte_hex_inj|by apply IH].
Qed.

Ltac spine32 hex Hlen :=
  do 32 (destruct hex as [|? hex]; [discriminate Hlen|]);
  destruct hex; [|discriminate Hlen].

(** The dashed form determines the 32 characters it was made of. *)
Lemma dashed_inj hex hex' :
  String.length hex = 32%nat → String.length hex' = 32%nat →
  DeviceId.dashed hex = DeviceId.dashed hex' → hex = hex'.
Proof.
  intros Hlen Hlen'. spine32 hex Hlen. spine32 hex' Hlen'.
  cbv [DeviceId.dashed DeviceId.join fold_left substring String.append].
  congruence.
Qed.

(** X12: the key of a raw 16-byte token is a string of 36 characters
    with hyphens at the positions 8, 13, 18 and 23, and two different
    16-byte tokens never have the same key. *)
Theorem deviceString_is_canonical_and_injective :
  ∀ a b,
    length a = 16%nat → length b = 16%nat →
    (∃ key, DeviceId.deviceString a = Return key
            ∧ String.length key = 36%nat
            ∧ String.get 8 key = Some "-"%char ∧ String.get 13 key = Some "-"%char
            ∧ String.get 18 key = Some "-"%char ∧ String.get 23 key = Some "-"%char)
    ∧ (DeviceId.deviceString a = DeviceId.deviceString b → a = b).
Proof.
  intros a b Ha Hb. split.
  - rewrite deviceString_dashed by lia. eexists. split; [reflexivity|].
    pose proof (length_toHex a) as Hlen. rewrite Ha in Hlen.
    cbn [DeviceId.string DeviceId.new].
    generalize dependent (DeviceId.toHex a). intros hex Hlen.
    spine32 hex Hlen. repeat split.
  - rewrite !deviceString_dashed by lia. intros [= Hkey].
    apply toHex_inj, dashed_inj; [|by rewrite length_toHex, Hb|done].
    by rewrite length_toHex, Ha.
Qed.

Lemma deviceString_is_canonical_and_injective_witness :
  (∃ key, DeviceId.deviceString sampleToken = Return key
          ∧ String.length key = 36%nat
          ∧ String.get 8 key = Some "-"%char ∧ String.get 13 key = Some "-"%char
          ∧ String.get 18 key = Some "-"%char ∧ String.get 23 key = Some "-"%char)
  ∧ (DeviceId.deviceString sampleToken = DeviceId.deviceString (token otherInfo) →
     sampleToken = token otherInfo).
Proof.
  refine (deviceString_is_canonical_and_injective sampleToken (token otherInfo) _ _);
    reflexivity.
Defined.

(** X13: of a raw identity longer than 16 bytes only the first 16 bytes
    count: the regular expression matches the first 32 hexadecimal
    digits, so the longer identity is looked up under the key of its
    16-byte prefix. *)
Theorem raw_identity_longer_than_16_bytes_uses_prefix :
  ∀ a rest self,
    length a = 16%nat →
    DeviceId.deviceString (a ++ rest) = DeviceId.deviceString a
    ∧ hasDevice (OfBytes (a ++ rest)) self = hasDevice (OfBytes a) self
    ∧ device (OfBytes (a ++ rest)) self = device (OfBytes a) self.
Proof.
  intros a rest self Hlen.
  assert (Hkey : DeviceId.deviceString (a ++ rest) = DeviceId.deviceString a).
  { do 16 (destruct a as [|? a]; [discriminate Hlen|]).
    destruct a; [|discriminate Hlen].
    unfold DeviceId.deviceString, DeviceId.execGroups.
    cbn [app DeviceId.toHex String.length Nat.ltb Nat.leb substring].
    by destruct (DeviceId.toHex rest). }
  split; [done|]. unfold hasDevice, device. cbn [keyOf]. by rewrite Hkey.
Qed.

Lemma raw_identity_longer_than_16_bytes_uses_prefix_witness :
  DeviceId.deviceString (sampleToken ++ ["171"; "205"]%byte)
  = DeviceId.deviceString sampleToken
  ∧ hasDevice (OfBytes (sampleToken ++ ["171"; "205"]%byte))
      (addDevice sampleInfo Devices.new).1
    = hasDevice (OfBytes sampleToken) (addDevice sampleInfo Devices.new).1
  ∧ device (OfBytes (sampleToken ++ ["171"; "205"]%byte))
      (addDevice sampleInfo Devices.new).1
    = device (OfBytes sampleToken) (addDevice sampleInfo Devices.new).1.
Proof.
  refine (raw_identity_longer_than_16_bytes_uses_prefix sampleToken
            ["171"; "205"]%byte (addDevice sampleInfo Devices.new).1 _).
  reflexivity.
Defined.

(** [getDevice] settles once a tick of the schedule stores a device
    under the key. *)
Lemma getDevice_settles arg key before : ∀ tk after self info,
  keyOf arg = Return key →
  _devices self !! key = None →
  neverAdded key before →
  info ∈ tk → addedKey info = key →
  ∃ self' info',
    getDevice arg (before ++ tk :: after) self
    = (self', Settled (Return (Some (newDeviceOf info'))))
    ∧ info' ∈ tk ∧ addedKey info' = key
    ∧ _devices self' !! key = Some (newDeviceOf info')
    ∧ emitted self' = emitted (runTick tk (fold_left (λ s t, runTick t s) before self)).
Proof.
  induction before as [|tk0 before IH];
    intros tk after self info Hkey Hnone Hnever Hin Hadd.
  - cbn [app fold_left]. rewrite (getDevice_unfold arg key) by done. rewrite Hnone.
    destruct (runTick_lookup_added key tk self info Hin Hadd)
      as (info' & Hin' & Hk' & Hl).
    rewrite (getDevice_unfold arg key) by done. rewrite Hl.
    by exists (runTick tk self), info'.
  - cbn [app fold_left]. rewrite (getDevice_unfold arg key) by done. rewrite Hnone.
    apply neverAdded_cons in Hnever as [Htk0 Hnever].
    apply (IH tk after _ info); try done.
    by rewrite runTick_lookup_other.
Qed.

(** X14: [updateDeviceInfo] on a device that is registered settles at
    once: the device keeps its key, its [deviceId] and its services and
    carries the new [info]; no other key changes and no event is
    emitted; afterwards [hasNewInfo] for that same [info] is false. *)
Theorem updateDeviceInfo_replaces_info_in_place :
  ∀ deviceId info schedule self d,
    _devices self !! DeviceId.string deviceId = Some d →
    (updateDeviceInfo deviceId info schedule self).2 = Settled (Return tt)
    ∧ device (OfDeviceId deviceId) (updateDeviceInfo deviceId info schedule self).1
      = Return (Some {| Devices.deviceId := Devices.deviceId d; Devices.info := info;
                        services := services d |})
    ∧ (∀ key, key ≠ DeviceId.string deviceId →
         _devices (updateDeviceInfo deviceId info schedule self).1 !! key
         = _devices self !! key)
    ∧ emitted (updateDeviceInfo deviceId info schedule self).1 = emitted self
    ∧ hasNewInfo (OfDeviceId deviceId) info
        (updateDeviceInfo deviceId info schedule self).1 = Return false.
Proof.
  intros deviceId info schedule self d Hd. unfold updateDeviceInfo.
  rewrite (getDevice_unfold _ (DeviceId.string deviceId)) by done. rewrite Hd.
  cbn [fst snd]. split; [done|].
  assert (Hdev : device (OfDeviceId deviceId)
                   {| _devices := <[DeviceId.string deviceId := setInfo info d]>
                                    (_devices self);
                      emitted := emitted self |}
                 = Return (Some (setInfo info d))).
  { unfold device. cbn [keyOf _devices]. cbv [mbind completion_bind JS.bind].
    by rewrite lookup_insert_eq. }
  split; [done|]. split; [|split; [done|]].
  - intros key Hne. cbn [_devices]. by apply lookup_insert_ne.
  - unfold hasNewInfo. rewrite Hdev. cbv [mbind completion_bind JS.bind].
    cbn [Devices.info setInfo]. by rewrite N.eqb_refl.
Qed.

Lemma updateDeviceInfo_replaces_info_in_place_witness :
  (updateDeviceInfo (DeviceId.new sampleToken) sampleInfoMoved []
     (addDevice sampleInfo Devices.new).1).2 = Settled (Return tt)
  ∧ device (OfDeviceId (DeviceId.new sampleToken))
      (updateDeviceInfo (DeviceId.new sampleToken) sampleInfoMoved []
         (addDevice sampleInfo Devices.new).1).1
    = Return (Some {| Devices.deviceId := Devices.deviceId (newDeviceOf sampleInfo);
                      Devices.info := sampleInfoMoved;
                      services := services (newDeviceOf sampleInfo) |})
  ∧ (∀ key, key ≠ DeviceId.string (DeviceId.new sampleToken) →
       _devices (updateDeviceInfo (DeviceId.new sampleToken) sampleInfoMoved []
                   (addDevice sampleInfo Devices.new).1).1 !! key
       = _devices (addDevice sampleInfo Devices.new).1 !! key)
  ∧ emitted (updateDeviceInfo (DeviceId.new sampleToken) sampleInfoMoved []
               (addDevice sampleInfo Devices.new).1).1
    = emitted (addDevice sampleInfo Devices.new).1
  ∧ hasNewInfo (OfDeviceId (DeviceId.new sampleToken)) sampleInfoMoved
      (updateDeviceInfo (DeviceId.new sampleToken) sampleInfoMoved []
         (addDevice sampleInfo Devices.new).1).1 = Return false.
Proof.
  refine (updateDeviceInfo_replaces_info_in_place (DeviceId.new sampleToken)
            sampleInfoMoved [] (addDevice sampleInfo Devices.new).1
            (newDeviceOf sampleInfo) _).
  reflexivity.
Defined.

(** X15: [updateDeviceInfo] called before the device exists waits like
    [getDevice]: it stays pending while no [addDevice] stores a device
    under the key, and once one does, it settles and the device that
    [addDevice] created carries the [info] of the update, not the one it
    was created with. *)
Theorem updateDeviceInfo_waits_for_addDevice :
  ∀ deviceId info before tk after self added,
    _devices self !! DeviceId.string deviceId = None →
    neverAdded (DeviceId.string deviceId) before →
    added ∈ tk → addedKey added = DeviceId.string deviceId →
    (updateDeviceInfo deviceId info before self).2 = Suspended
    ∧ ∃ self' added',
        updateDeviceInfo deviceId info (before ++ tk :: after) self
        = (self', Settled (Return tt))
        ∧ added' ∈ tk ∧ addedKey added' = DeviceId.string deviceId
        ∧ _devices self' !! DeviceId.string deviceId
          = Some (setInfo info (newDeviceOf added')).
Proof.
  intros deviceId info before tk after self added Hnone Hnever Hin Hadd. split.
  - unfold updateDeviceInfo.
    destruct (getDevice_suspended (OfDeviceId deviceId) (DeviceId.string deviceId)
                before self) as (self' & -> & _); done.
  - unfold updateDeviceInfo.
    destruct (getDevice_settles (OfDeviceId deviceId) (DeviceId.string deviceId)
                before tk after self added) as (self' & added' & -> & Hin' & Hk & _);
      try done.
    eexists _, added'. split; [reflexivity|]. split; [done|]. split; [done|].
    cbn [_devices]. apply lookup_insert_eq.
Qed.

Lemma updateDeviceInfo_waits_for_addDevice_witness :
  (updateDeviceInfo (DeviceId.new sampleToken) sampleInfoMoved [[otherInfo]]
     Devices.new).2 = Suspended
  ∧ ∃ self' added',
      updateDeviceInfo (DeviceId.new sampleToken) sampleInfoMoved
        ([[otherInfo]] ++ [sampleInfo] :: []) Devices.new
      = (self', Settled (Return tt))
      ∧ added' ∈ [sampleInfo]
      ∧ addedKey added' = DeviceId.string (DeviceId.new sampleToken)
      ∧ _devices self' !! DeviceId.string (DeviceId.new sampleToken)
        = Some (setInfo sampleInfoMoved (newDeviceOf added')).
Proof.
  refine (updateDeviceInfo_waits_for_addDevice (DeviceId.new sampleToken)
            sampleInfoMoved [[otherInfo]] [sampleInfo] [] Devices.new sampleInfo
            _ _ _ _).
  - reflexivity.
  - intros tk info Htk Hin. apply list_elem_of_singleton in Htk. subst tk.
    apply list_elem_of_singleton in Hin. subst info. by vm_compute.
  - by left.
  - reflexivity.
Defined.

(** X16: [hasNewInfo] looks at the port only.  For a device registered
    from [info], asked through any form of its identity, an
    announcement counts as new exactly when its port differs from the
    port of [info]; a change of address, source, software or token alone
    is not new. *)
Theorem hasNewInfo_compares_ports_only :
  ∀ info announced self form,
    length (token info) = 16%nat →
    form ∈ formsOf (token info) →
    hasNewInfo form announced (addDevice info self).1
    = Return (negb (N.eqb (port info) (port announced)))
    ∧ (port announced = port info →
       hasNewInfo form announced (addDevice info self).1 = Return false).
Proof.
  intros info announced self form Hlen Hin.
  assert (Hnew : hasNewInfo form announced (addDevice info self).1
                 = Return (negb (N.eqb (port info) (port announced)))).
  { unfold hasNewInfo, device. rewrite (keyOf_forms (token info)) by done.
    cbv [mbind completion_bind JS.bind].
    cbn [addDevice fst _devices Devices.deviceId newDeviceOf].
    by rewrite lookup_insert_eq. }
  split; [done|]. intros Hport. by rewrite Hnew, Hport, N.eqb_refl.
Qed.

Lemma hasNewInfo_compares_ports_only_witness :
  hasNewInfo (OfBytes sampleToken) sampleInfoMoved (addDevice sampleInfo Devices.new).1
  = Return (negb (N.eqb (port sampleInfo) (port sampleInfoMoved)))
  ∧ (port sampleInfoMoved = port sampleInfo →
     hasNewInfo (OfBytes sampleToken) sampleInfoMoved (addDevice sampleInfo Devices.new).1
     = Return false).
Proof.
  refine (hasNewInfo_compares_ports_only sampleInfo sampleInfoMoved Devices.new
            (OfBytes sampleToken) _ _).
  - reflexivity.
  - by left.
Defined.

(** X17: services of a registered device.  [addService] stores the
    service under its name in that device only, replacing a service of
    the same name; [deleteService] of that name afterwards gives back
    the registry as it was when the device had no service of that name;
    no event is emitted by either. *)
Theorem addService_then_deleteService :
  ∀ deviceId service self d,
    _devices self !! DeviceId.string deviceId = Some d →
    (addService deviceId service self).2 = Return tt
    ∧ (services <$> _devices (addService deviceId service self).1
                       !! DeviceId.string deviceId)
      = Some (<[service_name service := service]> (services d))
    ∧ (∀ key, key ≠ DeviceId.string deviceId →
         _devices (addService deviceId service self).1 !! key = _devices self !! key)
    ∧ (deleteService deviceId (service_name service)
         (addService deviceId service self).1).2 = Return tt
    ∧ (services d !! service_name service = None →
       (deleteService deviceId (service_name service)
          (addService deviceId service self).1).1 = self).
Proof.
  intros deviceId service self d Hd. unfold addService. rewrite Hd. cbn [fst snd].
  split; [done|]. split; [cbn [_devices]; by rewrite lookup_insert_eq|].
  split; [intros key Hne; cbn [_devices]; by apply lookup_insert_ne|].
  unfold deleteService. cbn [_devices]. rewrite lookup_insert_eq. cbn [fst snd emitted].
  split; [done|]. intros Hfresh.
  rewrite insert_insert_eq. unfold Device_deleteService, Device_addService.
  cbn [Devices.deviceId Devices.info services].
  rewrite delete_insert_eq, delete_id by done.
  destruct self as [m ev]. cbn [_devices emitted] in *. f_equal.
  rewrite insert_id; [done|]. by destruct d.
Qed.

Lemma addService_then_deleteService_witness :
  (addService (DeviceId.new sampleToken) stateMapService
     (addDevice sampleInfo Devices.new).1).2 = Return tt
  ∧ (services <$> _devices (addService (DeviceId.new sampleToken) stateMapService
                              (addDevice sampleInfo Devices.new).1).1
                    !! DeviceId.string (DeviceId.new sampleToken))
    = Some (<[service_name stateMapService := stateMapService]>
              (services (newDeviceOf sampleInfo)))
  ∧ (∀ key, key ≠ DeviceId.string (DeviceId.new sampleToken) →
       _devices (addService (DeviceId.new sampleToken) stateMapService
                   (addDevice sampleInfo Devices.new).1).1 !! key
       = _devices (addDevice sampleInfo Devices.new).1 !! key)
  ∧ (deleteService (DeviceId.new sampleToken) (service_name stateMapService)
       (addService (DeviceId.new sampleToken) stateMapService
          (addDevice sampleInfo Devices.new).1).1).2 = Return tt
  ∧ (services (newDeviceOf sampleInfo) !! service_name stateMapService = None →
     (deleteService (DeviceId.new sampleToken) (service_name stateMapService)
        (addService (DeviceId.new sampleToken) stateMapService
           (addDevice sampleInfo Devices.new).1).1).1
     = (addDevice sampleInfo Devices.new).1).
Proof.
  refine (addService_then_deleteService (DeviceId.new sampleToken) stateMapService
            (addDevice sampleInfo Devices.new).1 (newDeviceOf sampleInfo) _).
  reflexivity.
Defined.

(** X18: on a key under which nothing is registered, [hasNewInfo],
    [addService] and [deleteService] throw a TypeError (they read a
    property of [undefined]) and the registry is left as it was, while
    [hasDevice] answers false and [device] answers [undefined]. *)
Theorem registry_calls_on_unknown_device :
  ∀ deviceId info service serviceName self,
    _devices self !! DeviceId.string deviceId = None →
    hasDevice (OfDeviceId deviceId) self = Return false
    ∧ device (OfDeviceId deviceId) self = Return None
    ∧ hasNewInfo (OfDeviceId deviceId) info self = Throw TypeError
    ∧ addService deviceId service self = (self, Throw TypeError)
    ∧ deleteService deviceId serviceName self = (self, Throw TypeError).
Proof.
  intros deviceId info service serviceName self Hnone.
  unfold hasDevice, hasNewInfo, device, addService, deleteService.
  cbn [keyOf]. cbv [mbind completion_bind JS.bind]. rewrite Hnone.
  repeat split.
Qed.

Lemma registry_calls_on_unknown_device_witness :
  hasDevice (OfDeviceId (DeviceId.new (token otherInfo)))
    (addDevice sampleInfo Devices.new).1 = Return false
  ∧ device (OfDeviceId (DeviceId.new (token otherInfo)))
      (addDevice sampleInfo Devices.new).1 = Return None
  ∧ hasNewInfo (OfDeviceId (DeviceId.new (token otherInfo))) otherInfo
      (addDevice sampleInfo Devices.new).1 = Throw TypeError
  ∧ addService (DeviceId.new (token otherInfo)) stateMapService
      (addDevice sampleInfo Devices.new).1
    = ((addDevice sampleInfo Devices.new).1, Throw TypeError)
  ∧ deleteService (DeviceId.new (token otherInfo)) "StateMap"
      (addDevice sampleInfo Devices.new).1
    = ((addDevice sampleInfo Devices.new).1, Throw TypeError).
Proof.
  refine (registry_calls_on_unknown_device (DeviceId.new (token otherInfo)) otherInfo
            stateMapService "StateMap" (addDevice sampleInfo Devices.new).1 _).
  reflexivity.
Defined.

End DevicesMore.

(** * Further properties of the connection orchestrator *)

Section OrchestratorMore.

Import JS Types StageLinqDevices StageLinqDevicesSpec ConnectSpec.

(** A run of the connect routine that gets through. *)
Lemma connectToPlayer_ok connectionInfo net self ft :
  connects (options self) (net (length (connectCalls self))) = true →
  fileTransfer (net (length (connectCalls self))) = Some ft →
  connectToPlayer connectionInfo net self
  = (emit (connected connectionInfo)
       (setDevices (insert (address connectionInfo) (tracked connectionInfo ft))
          (enterConnect connectionInfo self)), Return tt).
Proof.
  unfold connects, connectToPlayer. intros Hc Hft.
  destruct (net (length (connectCalls self))) as [sc oft sd sm]. cbn in *. subst oft.
  destruct sc, sm; rewrite ?andb_false_r in Hc; try done. cbn in *.
  destruct (downloadDbSources (options self)), sd; done.
Qed.

(** What every run of the connect routine does and leaves alone. *)
Lemma connectToPlayer_effects connectionInfo net self :
  connectCalls (connectToPlayer connectionInfo net self).1
  = connectCalls self ++ [connectionInfo]
  ∧ options (connectToPlayer connectionInfo net self).1 = options self
  ∧ discoveryStatus (connectToPlayer connectionInfo net self).1 = discoveryStatus self
  ∧ (∀ ip, ip ≠ address connectionInfo →
       devices (connectToPlayer connectionInfo net self).1 !! ip = devices self !! ip)
  ∧ ((connectToPlayer connectionInfo net self).2 ≠ Return tt →
     emitted (connectToPlayer connectionInfo net self).1 = emitted self).
Proof.
  unfold connectToPlayer.
  destruct (socketConnects _); [|done]. cbn [negb].
  destruct (fileTransfer _); [|done].
  cbn [options setDevices enterConnect].
  destruct (downloadDbSources _ && negb _);
    [|destruct (negb (stateMapConnects _))]; cbn [fst snd];
    (repeat split; try done;
     try (intros ip Hne; cbn [devices emit setDevices]; by apply lookup_insert_ne)).
Qed.

(** A run that does not get through throws. *)
Lemma connectToPlayer_fails connectionInfo net self :
  connects (options self) (net (length (connectCalls self))) = false →
  ∃ e, (connectToPlayer connectionInfo net self).2 = Throw e.
Proof.
  unfold connects, connectToPlayer.
  destruct (net (length (connectCalls self))) as [sc oft sd sm]. cbn.
  destruct sc; [|by eexists]. destruct oft as [ft|]; [|by eexists]. cbn.
  destruct (downloadDbSources (options self)), sd, sm; cbn; try done; by eexists.
Qed.

(** The loop never runs the connect routine more often than the bound
    of its counter allows, always for the announced device, and touches
    no tracked device at another address. *)
Lemma retryLoop_bound connectionInfo net fuel : ∀ attempt self,
  ∃ k, (k ≤ Z.to_nat (maxRetries (options self) - attempt))%nat
       ∧ connectCalls (retryLoop fuel attempt connectionInfo net self).1
         = connectCalls self ++ replicate k connectionInfo
       ∧ ∀ ip, ip ≠ address connectionInfo →
               devices (retryLoop fuel attempt connectionInfo net self).1 !! ip
               = devices self !! ip.
Proof.
  induction fuel as [|fuel IH]; intros attempt self; cbn [retryLoop];
    destruct (Z.ltb_spec attempt (maxRetries (options self))) as [Hlt|Hge];
    try (exists 0%nat; cbn [replicate fst]; rewrite app_nil_r;
         split; [lia|done]).
  destruct (connectToPlayer_effects connectionInfo net self) as (Hc & Ho & _ & Hd & _).
  destruct (connectToPlayer connectionInfo net self) as [self1 [[]|e]];
    cbn [fst snd] in *.
  - exists 1%nat. split; [lia|]. cbn [emit setStatus connectCalls devices replicate].
    done.
  - destruct (IH (attempt + 1) self1) as (k & Hk & Hc' & Hd').
    exists (S k). rewrite Ho in Hk. split; [lia|]. split.
    + rewrite Hc', Hc. cbn [replicate]. by rewrite <- app_assoc.
    + intros ip Hne. rewrite Hd' by done. by apply Hd.
Qed.

(** One call changes no discovery-status entry of another identity and
    no tracked device at another address. *)
Lemma handleDevice_attempts_local connectionInfo net self :
  (∀ key, key ≠ deviceId connectionInfo →
     discoveryStatus (handleDevice connectionInfo net self).1 !! key
     = discoveryStatus self !! key)
  ∧ (∀ ip, ip ≠ address connectionInfo →
       devices (handleDevice connectionInfo net self).1 !! ip = devices self !! ip).
Proof.
  destruct (status_cases (discoveryStatus self !! deviceId connectionInfo))
    as [Hnone|Hsome];
    [destruct (isIgnored connectionInfo self) eqn:Hign|].
  - rewrite handleDevice_skips by auto. done.
  - destruct (handleDevice_proceeds connectionInfo net self Hnone Hign) as (_ & Hk & _).
    split; [done|].
    unfold handleDevice, isConnected, isConnecting, isFailed.
    rewrite Hnone, Hign. repeat case_bool_decide; try done. cbn [orb].
    set (self0 := setStatus (deviceId connectionInfo) CONNECTING self).
    destruct (retryLoop_bound connectionInfo net
                (Z.to_nat (maxRetries (options self0) - 1)) 1 self0)
      as (k & _ & _ & Hd).
    destruct (retryLoop _ 1 connectionInfo net self0) as [self1 []];
      cbn [fst snd setStatus devices] in *; done.
  - rewrite handleDevice_skips by tauto. done.
Qed.

(** X19: whatever the network answers, one call of [handleDevice] runs
    the connect routine at most [maxRetries - 1] times, each time for
    the announced device; it changes no discovery-status entry of
    another identity and no tracked device at another address. *)
Theorem handleDevice_attempts_are_bounded_and_local :
  ∀ connectionInfo net self,
    (∃ k, (k ≤ Z.to_nat (maxRetries (options self) - 1))%nat
          ∧ connectCalls (handleDevice connectionInfo net self).1
            = connectCalls self ++ replicate k connectionInfo)
    ∧ (∀ key, key ≠ deviceId connectionInfo →
         discoveryStatus (handleDevice connectionInfo net self).1 !! key
         = discoveryStatus self !! key)
    ∧ (∀ ip, ip ≠ address connectionInfo →
         devices (handleDevice connectionInfo net self).1 !! ip = devices self !! ip).
Proof.
  intros connectionInfo net self.
  destruct (status_cases (discoveryStatus self !! deviceId connectionInfo))
    as [Hnone|Hsome];
    [destruct (isIgnored connectionInfo self) eqn:Hign|].
  - rewrite handleDevice_skips by auto. split; [|done].
    exists 0%nat. cbn [replicate fst]. rewrite app_nil_r. split; [lia|done].
  - destruct (handleDevice_proceeds connectionInfo net self Hnone Hign) as (_ & Hk & _).
    split; [|split; [done|]].
    + unfold handleDevice, isConnected, isConnecting, isFailed.
      rewrite Hnone, Hign. repeat case_bool_decide; try done. cbn [orb].
      set (self0 := setStatus (deviceId connectionInfo) CONNECTING self).
      destruct (retryLoop_bound connectionInfo net
                  (Z.to_nat (maxRetries (options self0) - 1)) 1 self0)
        as (k & Hle & Hc & _).
      exists k. split; [done|].
      destruct (retryLoop _ 1 connectionInfo net self0) as [self1 []];
        cbn [fst snd setStatus connectCalls] in *; done.
    + unfold handleDevice, isConnected, isConnecting, isFailed.
      rewrite Hnone, Hign. repeat case_bool_decide; try done. cbn [orb].
      set (self0 := setStatus (deviceId connectionInfo) CONNECTING self).
      destruct (retryLoop_bound connectionInfo net
                  (Z.to_nat (maxRetries (options self0) - 1)) 1 self0)
        as (k & _ & _ & Hd).
      destruct (retryLoop _ 1 connectionInfo net self0) as [self1 []];
        cbn [fst snd setStatus devices] in *; done.
  - rewrite handleDevice_skips by tauto. split; [|done].
    exists 0%nat. cbn [replicate fst]. rewrite app_nil_r. split; [lia|done].
Qed.

(** X20: with [maxRetries] 1 or less the loop body never runs: an
    unseen device that is not ignored is marked FAILED and the error is
    thrown without a single run of the connect routine, whatever the
    network would have answered; nothing is emitted and no device is
    tracked. *)
Theorem handleDevice_without_attempts_when_maxRetries_at_most_1 :
  ∀ connectionInfo net self,
    maxRetries (options self) ≤ 1 →
    discoveryStatus self !! deviceId connectionInfo = None →
    isIgnored connectionInfo self = false →
    (handleDevice connectionInfo net self).2
    = Throw (Error (String.append "Could not connect to " (deviceId connectionInfo)))
    ∧ discoveryStatus (handleDevice connectionInfo net self).1
        !! deviceId connectionInfo = Some FAILED
    ∧ connectCalls (handleDevice connectionInfo net self).1 = connectCalls self
    ∧ emitted (handleDevice connectionInfo net self).1 = emitted self
    ∧ devices (handleDevice connectionInfo net self).1 = devices self.
Proof.
  intros connectionInfo net self Hmax Hnone Hign.
  unfold handleDevice, isConnected, isConnecting, isFailed.
  rewrite Hnone, Hign. repeat case_bool_decide; try done. cbn [orb].
  cbn [setStatus options].
  replace (Z.to_nat (maxRetries (options self) - 1)) with 0%nat by lia.
  cbn [retryLoop setStatus options].
  destruct (Z.ltb_spec 1 (maxRetries (options self))); [lia|].
  cbn [fst snd setStatus discoveryStatus connectCalls emitted devices].
  repeat split. apply lookup_insert_eq.
Qed.

Lemma handleDevice_without_attempts_when_maxRetries_at_most_1_witness :
  (handleDevice player1 reachable (new retry1)).2
  = Throw (Error (String.append "Could not connect to " (deviceId player1)))
  ∧ discoveryStatus (handleDevice player1 reachable (new retry1)).1
      !! deviceId player1 = Some FAILED
  ∧ connectCalls (handleDevice player1 reachable (new retry1)).1
    = connectCalls (new retry1)
  ∧ emitted (handleDevice player1 reachable (new retry1)).1 = emitted (new retry1)
  ∧ devices (handleDevice player1 reachable (new retry1)).1 = devices (new retry1).
Proof.
  refine (handleDevice_without_attempts_when_maxRetries_at_most_1
            player1 reachable (new retry1) _ _ _).
  - by vm_compute.
  - reflexivity.
  - reflexivity.
Defined.

(** The loop entered when the next [k] runs of the connect routine
    fail and the one after them gets through. *)
Lemma retryLoop_succeeds_after connectionInfo net ft k : ∀ fuel attempt self,
  (k < fuel)%nat →
  attempt + Z.of_nat k < maxRetries (options self) →
  (∀ j, (j < k)%nat →
        connects (options self) (net (length (connectCalls self) + j)%nat) = false) →
  connects (options self) (net (length (connectCalls self) + k)%nat) = true →
  fileTransfer (net (length (connectCalls self) + k)%nat) = Some ft →
  (retryLoop fuel attempt connectionInfo net self).2 = Returned
  ∧ discoveryStatus (retryLoop fuel attempt connectionInfo net self).1
      !! deviceId connectionInfo = Some CONNECTED
  ∧ connectCalls (retryLoop fuel attempt connectionInfo net self).1
    = connectCalls self ++ replicate (S k) connectionInfo
  ∧ devices (retryLoop fuel attempt connectionInfo net self).1 !! address connectionInfo
    = Some (tracked connectionInfo ft)
  ∧ emitted (retryLoop fuel attempt connectionInfo net self).1
    = emitted self ++ [connected connectionInfo; ready connectionInfo].
Proof.
  induction k as [|k IH]; intros fuel attempt self Hfuel Hatt Hfail Hok Hft;
    (destruct fuel as [|fuel]; [lia|]); cbn [retryLoop];
    (destruct (Z.ltb_spec attempt (maxRetries (options self))); [|lia]).
  - rewrite Nat.add_0_r in Hok, Hft.
    rewrite (connectToPlayer_ok connectionInfo net self ft) by done.
    cbn [fst snd emit setStatus setDevices enterConnect discoveryStatus connectCalls
         devices emitted replicate].
    split; [done|]. split; [apply lookup_insert_eq|]. split; [done|].
    split; [apply lookup_insert_eq|]. by rewrite <- app_assoc.
  - pose proof (Hfail 0%nat ltac:(lia)) as H0. rewrite Nat.add_0_r in H0.
    destruct (connectToPlayer_fails connectionInfo net self H0) as [e He].
    destruct (connectToPlayer_effects connectionInfo net self)
      as (Hc & Ho & _ & _ & Hem).
    destruct (connectToPlayer connectionInfo net self) as [self1 c];
      cbn [fst snd] in *. subst c.
    destruct (IH fuel (attempt + 1) self1) as (Hx & Hs & Hcalls & Hd & Hev).
    + lia.
    + rewrite Ho. lia.
    + intros j Hj. rewrite Ho, Hc, length_app. cbn [length].
      replace (length (connectCalls self) + 1 + j)%nat
        with (length (connectCalls self) + S j)%nat by lia.
      apply Hfail. lia.
    + rewrite Ho, Hc, length_app. cbn [length].
      by replace (length (connectCalls self) + 1 + k)%nat
        with (length (connectCalls self) + S k)%nat by lia.
    + rewrite Hc, length_app. cbn [length].
      by replace (length (connectCalls self) + 1 + k)%nat
        with (length (connectCalls self) + S k)%nat by lia.
    + split; [done|]. split; [done|]. split.
      * rewrite Hcalls, Hc. cbn [replicate]. by rewrite <- app_assoc.
      * split; [done|]. rewrite Hev. by rewrite Hem.
Qed.

(** When the listeners of [connected] return, the connect routine is
    the one for returning listeners. *)
Lemma connectToPlayerWith_returns listeners connectionInfo net self :
  listeners (connected connectionInfo) = Return tt →
  connectToPlayerWith listeners connectionInfo net self
  = connectToPlayer connectionInfo net self.
Proof.
  intros Hc. unfold connectToPlayerWith, connectToPlayer, emitWith.
  by rewrite Hc.
Qed.

(** A run of the connect routine that does not get through does not
    reach its [emit], whatever the listeners do. *)
Lemma connectToPlayerWith_fails listeners connectionInfo net self :
  connects (options self) (net (length (connectCalls self))) = false →
  connectToPlayerWith listeners connectionInfo net self
  = connectToPlayer connectionInfo net self.
Proof.
  unfold connects, connectToPlayerWith, connectToPlayer.
  destruct (net (length (connectCalls self))) as [sc oft sd sm]. cbn.
  destruct sc; [|done]. destruct oft as [ft|]; [|done]. cbn.
  destruct (downloadDbSources (options self)), sd, sm; cbn; done.
Qed.

Lemma retryLoopWith_returns listeners connectionInfo net fuel : ∀ attempt self,
  listeners (connected connectionInfo) = Return tt →
  listeners (ready connectionInfo) = Return tt →
  retryLoopWith listeners fuel attempt connectionInfo net self
  = retryLoop fuel attempt connectionInfo net self.
Proof.
  induction fuel as [|fuel IH]; intros attempt self Hc Hr;
    cbn [retryLoopWith retryLoop]; [done|].
  rewrite connectToPlayerWith_returns by done. unfold emitWith. rewrite Hr.
  destruct (attempt <? maxRetries (options self)); [|done].
  destruct (connectToPlayer connectionInfo net self) as [self1 [[]|e]]; [done|].
  by apply IH.
Qed.

Lemma handleDeviceWith_returns listeners connectionInfo net self :
  listeners (connected connectionInfo) = Return tt →
  listeners (ready connectionInfo) = Return tt →
  handleDeviceWith listeners connectionInfo net self
  = handleDevice connectionInfo net self.
Proof.
  intros Hc Hr. unfold handleDeviceWith, handleDevice.
  by rewrite retryLoopWith_returns.
Qed.

(** [handleDevice] is the method for listeners that return on every
    event. *)
Lemma handleDeviceWith_quiet connectionInfo net self :
  handleDeviceWith quiet connectionInfo net self
  = handleDevice connectionInfo net self.
Proof. by apply handleDeviceWith_returns. Qed.

Lemma retryLoopWith_all_fail listeners connectionInfo net fuel : ∀ attempt self,
  (∀ k, connects (options self) (net k) = false) →
  retryLoopWith listeners fuel attempt connectionInfo net self
  = retryLoop fuel attempt connectionInfo net self.
Proof.
  induction fuel as [|fuel IH]; intros attempt self Hfail;
    cbn [retryLoopWith retryLoop]; [done|].
  rewrite connectToPlayerWith_fails by done.
  destruct (attempt <? maxRetries (options self)); [|done].
  destruct (connectToPlayer_fails connectionInfo net self (Hfail _)) as [e He].
  destruct (connectToPlayer_frame connectionInfo net self) as [_ Ho].
  destruct (connectToPlayer connectionInfo net self) as [self1 c];
    cbn [fst snd] in *. subst c.
  apply IH. intros k. rewrite Ho. apply Hfail.
Qed.

Lemma handleDeviceWith_all_fail listeners connectionInfo net self :
  (∀ k, connects (options self) (net k) = false) →
  handleDeviceWith listeners connectionInfo net self
  = handleDevice connectionInfo net self.
Proof.
  intros Hfail. unfold handleDeviceWith, handleDevice.
  by rewrite retryLoopWith_all_fail.
Qed.

(** X21: the loop stops at the first run of the connect routine that
    gets through, provided the listeners of [connected] and [ready]
    return for the device (an exception of one of them is caught like a
    failed connection).  When the next [k] runs fail, the run after
    them succeeds and [k + 1] is below [maxRetries], the call returns
    after exactly [k + 1] runs with the identity CONNECTED, the device
    tracked under its address with the file-transfer service of that
    run, and the events [connected] and [ready] emitted, in this order,
    and no other. *)
Theorem handleDevice_stops_at_first_success :
  ∀ listeners connectionInfo net self k ft,
    listeners (connected connectionInfo) = Return tt →
    listeners (ready connectionInfo) = Return tt →
    discoveryStatus self !! deviceId connectionInfo = None →
    isIgnored connectionInfo self = false →
    Z.of_nat k + 1 < maxRetries (options self) →
    (∀ j, (j < k)%nat →
          connects (options self) (net (length (connectCalls self) + j)%nat) = false) →
    connects (options self) (net (length (connectCalls self) + k)%nat) = true →
    fileTransfer (net (length (connectCalls self) + k)%nat) = Some ft →
    (handleDeviceWith listeners connectionInfo net self).2 = Return tt
    ∧ discoveryStatus (handleDeviceWith listeners connectionInfo net self).1
        !! deviceId connectionInfo = Some CONNECTED
    ∧ connectCalls (handleDeviceWith listeners connectionInfo net self).1
      = connectCalls self ++ replicate (S k) connectionInfo
    ∧ devices (handleDeviceWith listeners connectionInfo net self).1
        !! address connectionInfo
      = Some (tracked connectionInfo ft)
    ∧ emitted (handleDeviceWith listeners connectionInfo net self).1
      = emitted self ++ [connected connectionInfo; ready connectionInfo].
Proof.
  intros listeners connectionInfo net self k ft Hlc Hlr Hnone Hign Hmax Hfail Hok Hft.
  rewrite handleDeviceWith_returns by done.
  unfold handleDevice, isConnected, isConnecting, isFailed.
  rewrite Hnone, Hign. repeat case_bool_decide; try done. cbn [orb].
  set (self0 := setStatus (deviceId connectionInfo) CONNECTING self).
  destruct (retryLoop_succeeds_after connectionInfo net ft k
              (Z.to_nat (maxRetries (options self0) - 1)) 1 self0)
    as (Hx & Hs & Hc & Hd & He); try done.
  - cbn [self0 setStatus options]. lia.
  - cbn [self0 setStatus options]. lia.
  - destruct (retryLoop _ 1 connectionInfo net self0) as [self1 x];
      cbn [fst snd] in *. by subst x.
Qed.

Lemma handleDevice_stops_at_first_success_witness :
  (handleDeviceWith quiet player1 flaky (new retry5)).2 = Return tt
  ∧ discoveryStatus (handleDeviceWith quiet player1 flaky (new retry5)).1
      !! deviceId player1 = Some CONNECTED
  ∧ connectCalls (handleDeviceWith quiet player1 flaky (new retry5)).1
    = connectCalls (new retry5) ++ replicate 2 player1
  ∧ devices (handleDeviceWith quiet player1 flaky (new retry5)).1 !! address player1
    = Some (tracked player1 emptyFiles)
  ∧ emitted (handleDeviceWith quiet player1 flaky (new retry5)).1
    = emitted (new retry5) ++ [connected player1; ready player1].
Proof.
  refine (handleDevice_stops_at_first_success quiet player1 flaky (new retry5) 1
            emptyFiles _ _ _ _ _ _ _ _).
  - reflexivity.
  - reflexivity.
  - reflexivity.
  - reflexivity.
  - by vm_compute.
  - intros j Hj. replace j with 0%nat by lia. reflexivity.
  - reflexivity.
  - reflexivity.
Defined.

(** The loop on a network where the socket and the file-transfer
    service connect and a later step of the connect routine fails: the
    download of the database sources, when it is configured, or the
    state map. *)
Lemma retryLoop_tracks_before_failing connectionInfo net ft fuel : ∀ attempt self,
  (∀ k, socketConnects (net k) = true ∧ fileTransfer (net k) = Some ft
        ∧ ((downloadDbSources (options self) = true ∧ sourcesDownload (net k) = false)
           ∨ stateMapConnects (net k) = false)) →
  (Z.to_nat (maxRetries (options self) - attempt) ≤ fuel)%nat →
  (retryLoop fuel attempt connectionInfo net self).2 = Exhausted
  ∧ (attempt < maxRetries (options self)
     ∨ devices self !! address connectionInfo = Some (tracked connectionInfo ft) →
     devices (retryLoop fuel attempt connectionInfo net self).1 !! address connectionInfo
     = Some (tracked connectionInfo ft)).
Proof.
  induction fuel as [|fuel IH]; intros attempt self Hnet Hfuel; cbn [retryLoop];
    destruct (Z.ltb_spec attempt (maxRetries (options self))) as [Hlt|Hge];
    try lia; try (split; [done|]; intros [?|?]; [lia|done]).
  assert (Hrun : connectToPlayer connectionInfo net self
                 = (setDevices (insert (address connectionInfo)
                                  (tracked connectionInfo ft))
                      (enterConnect connectionInfo self),
                    Throw (Error (if downloadDbSources (options self)
                                        && negb (sourcesDownload
                                                   (net (length (connectCalls self))))
                                  then "downloadSourcesFromDevice"
                                  else "StateMap")))).
  { unfold connectToPlayer.
    destruct (Hnet (length (connectCalls self))) as (-> & -> & [[Hdb Hsd]| ->]);
      cbn [negb]; cbn [options setDevices enterConnect].
    - by rewrite Hdb, Hsd.
    - by destruct (_ && _). }
  rewrite Hrun.
  destruct (IH (attempt + 1)
              (setDevices (insert (address connectionInfo) (tracked connectionInfo ft))
                 (enterConnect connectionInfo self))) as [Hx Hd].
  { exact Hnet. }
  { cbn [setDevices enterConnect options]. lia. }
  split; [done|]. intros _. apply Hd. right.
  cbn [setDevices devices]. apply lookup_insert_eq.
Qed.

(** X22: a device stays tracked although its connection failed.  When
    the socket and the file-transfer service connect in every attempt
    and a later step of the connect routine fails each time (the
    download of the database sources, when it is configured, or the
    state map), the call ends with the error and the identity FAILED,
    whatever the listeners do; yet the device is in the tracked-devices
    map, so [downloadFile] for its address delegates to that
    file-transfer service. *)
Theorem failed_device_stays_tracked :
  ∀ listeners connectionInfo net self ft path,
    discoveryStatus self !! deviceId connectionInfo = None →
    isIgnored connectionInfo self = false →
    1 < maxRetries (options self) →
    (∀ k, socketConnects (net k) = true ∧ fileTransfer (net k) = Some ft
          ∧ ((downloadDbSources (options self) = true ∧ sourcesDownload (net k) = false)
             ∨ stateMapConnects (net k) = false)) →
    (handleDeviceWith listeners connectionInfo net self).2
    = Throw (Error (String.append "Could not connect to " (deviceId connectionInfo)))
    ∧ discoveryStatus (handleDeviceWith listeners connectionInfo net self).1
        !! deviceId connectionInfo = Some FAILED
    ∧ devices (handleDeviceWith listeners connectionInfo net self).1
        !! address connectionInfo
      = Some (tracked connectionInfo ft)
    ∧ downloadFile (address connectionInfo) path
        (handleDeviceWith listeners connectionInfo net self).1
      = getFile ft path.
Proof.
  intros listeners connectionInfo net self ft path Hnone Hign Hmax Hnet.
  rewrite handleDeviceWith_all_fail.
  2:{ intros k. unfold connects.
      destruct (Hnet k) as (_ & _ & [[-> ->]| ->]); cbn [implb];
        by rewrite ?andb_false_r. }
  assert (Hd : devices (handleDevice connectionInfo net self).1 !! address connectionInfo
               = Some (tracked connectionInfo ft)
               ∧ (handleDevice connectionInfo net self).2
                 = Throw (Error (String.append "Could not connect to "
                                   (deviceId connectionInfo)))
               ∧ discoveryStatus (handleDevice connectionInfo net self).1
                   !! deviceId connectionInfo = Some FAILED).
  { unfold handleDevice, isConnected, isConnecting, isFailed.
    rewrite Hnone, Hign. repeat case_bool_decide; try done. cbn [orb].
    set (self0 := setStatus (deviceId connectionInfo) CONNECTING self).
    destruct (retryLoop_tracks_before_failing connectionInfo net ft
                (Z.to_nat (maxRetries (options self0) - 1)) 1 self0 Hnet
                (Nat.le_refl _)) as [Hx Hdev].
    destruct (retryLoop _ 1 connectionInfo net self0) as [self1 x];
      cbn [fst snd] in *. subst x.
    cbn [fst snd setStatus devices discoveryStatus].
    split; [apply Hdev; by left|]. split; [done|apply lookup_insert_eq]. }
  destruct Hd as (Hdev & Hthrow & Hfailed).
  split; [done|]. split; [done|]. split; [done|].
  unfold downloadFile. rewrite Hdev. cbn [tracked fileTransferService].
  by destruct (getFile ft path).
Qed.

Lemma failed_device_stays_tracked_witness :
  (handleDeviceWith failing player1 noDatabase (new retry3Db)).2
  = Throw (Error (String.append "Could not connect to " (deviceId player1)))
  ∧ discoveryStatus (handleDeviceWith failing player1 noDatabase (new retry3Db)).1
      !! deviceId player1 = Some FAILED
  ∧ devices (handleDeviceWith failing player1 noDatabase (new retry3Db)).1
      !! address player1
    = Some (tracked player1 emptyFiles)
  ∧ downloadFile (address player1) "/music/track.mp3"
      (handleDeviceWith failing player1 noDatabase (new retry3Db)).1
    = getFile emptyFiles "/music/track.mp3".
Proof.
  refine (failed_device_stays_tracked failing player1 noDatabase (new retry3Db)
            emptyFiles "/music/track.mp3" _ _ _ _).
  - reflexivity.
  - reflexivity.
  - by vm_compute.
  - intros k. split; [reflexivity|]. split; [reflexivity|]. left. by split.
Defined.

(** The loop when every run of the connect routine gets through and a
    listener of [ready] throws. *)
Lemma retryLoopWith_ready_throws listeners connectionInfo net ft e fuel :
  ∀ attempt self,
  listeners (connected connectionInfo) = Return tt →
  listeners (ready connectionInfo) = Throw e →
  (∀ k, connects (options self) (net k) = true ∧ fileTransfer (net k) = Some ft) →
  (Z.to_nat (maxRetries (options self) - attempt) ≤ fuel)%nat →
  (retryLoopWith listeners fuel attempt connectionInfo net self).2 = Exhausted
  ∧ connectCalls (retryLoopWith listeners fuel attempt connectionInfo net self).1
    = connectCalls self
      ++ replicate (Z.to_nat (maxRetries (options self) - attempt)) connectionInfo
  ∧ emitted (retryLoopWith listeners fuel attempt connectionInfo net self).1
    = emitted self
      ++ announced connectionInfo (Z.to_nat (maxRetries (options self) - attempt))
  ∧ (attempt < maxRetries (options self)
     ∨ devices self !! address connectionInfo = Some (tracked connectionInfo ft) →
     devices (retryLoopWith listeners fuel attempt connectionInfo net self).1
       !! address connectionInfo
     = Some (tracked connectionInfo ft)).
Proof.
  induction fuel as [|fuel IH]; intros attempt self Hlc Hlr Hnet Hfuel;
    cbn [retryLoopWith];
    destruct (Z.ltb_spec attempt (maxRetries (options self))) as [Hlt|Hge];
    try lia;
    try (replace (Z.to_nat (maxRetries (options self) - attempt)) with 0%nat by lia;
         unfold announced; cbn [fst snd replicate concat]; rewrite !app_nil_r;
         split; [done|]; split; [done|]; split; [done|];
         intros [?|?]; [lia|done]).
  rewrite connectToPlayerWith_returns by done.
  rewrite (connectToPlayer_ok connectionInfo net self ft) by apply Hnet.
  unfold emitWith. rewrite Hlr.
  set (self2 := emit (ready connectionInfo)
                  (setStatus (deviceId connectionInfo) CONNECTED
                     (emit (connected connectionInfo)
                        (setDevices (insert (address connectionInfo)
                                       (tracked connectionInfo ft))
                           (enterConnect connectionInfo self))))).
  destruct (IH (attempt + 1) self2 Hlc Hlr) as (Hx & Hc & He & Hd).
  { exact Hnet. }
  { cbn [self2 emit setStatus setDevices enterConnect options]. lia. }
  replace (Z.to_nat (maxRetries (options self) - attempt))
    with (S (Z.to_nat (maxRetries (options self2) - (attempt + 1))))
    by (cbn [self2 emit setStatus setDevices enterConnect options]; lia).
  split; [done|]. split; [|split].
  - rewrite Hc. cbn [self2 emit setStatus setDevices enterConnect connectCalls replicate].
    by rewrite <- app_assoc.
  - rewrite He. unfold announced.
    cbn [self2 emit setStatus setDevices enterConnect emitted replicate concat].
    by rewrite <- !app_assoc.
  - intros _. apply Hd. right.
    cbn [self2 emit setStatus setDevices enterConnect devices].
    apply lookup_insert_eq.
Qed.

(** X26: an exception of a [ready] listener is caught like a failed
    connection.  When every run of the connect routine gets through,
    the listeners of [connected] return and a listener of [ready]
    throws, the call runs the connect routine [maxRetries - 1] times,
    emitting [connected] and [ready] each time, and ends with the error
    and the identity FAILED, although the device is connected and
    tracked. *)
Theorem ready_listener_exception_is_retried_as_a_failure :
  ∀ listeners connectionInfo net self ft e,
    listeners (connected connectionInfo) = Return tt →
    listeners (ready connectionInfo) = Throw e →
    discoveryStatus self !! deviceId connectionInfo = None →
    isIgnored connectionInfo self = false →
    1 < maxRetries (options self) →
    (∀ k, connects (options self) (net k) = true ∧ fileTransfer (net k) = Some ft) →
    (handleDeviceWith listeners connectionInfo net self).2
    = Throw (Error (String.append "Could not connect to " (deviceId connectionInfo)))
    ∧ discoveryStatus (handleDeviceWith listeners connectionInfo net self).1
        !! deviceId connectionInfo = Some FAILED
    ∧ connectCalls (handleDeviceWith listeners connectionInfo net self).1
      = connectCalls self
        ++ replicate (Z.to_nat (maxRetries (options self) - 1)) connectionInfo
    ∧ emitted (handleDeviceWith listeners connectionInfo net self).1
      = emitted self
        ++ announced connectionInfo (Z.to_nat (maxRetries (options self) - 1))
    ∧ devices (handleDeviceWith listeners connectionInfo net self).1
        !! address connectionInfo
      = Some (tracked connectionInfo ft).
Proof.
  intros listeners connectionInfo net self ft e Hlc Hlr Hnone Hign Hmax Hnet.
  unfold handleDeviceWith, isConnected, isConnecting, isFailed.
  rewrite Hnone, Hign. repeat case_bool_decide; try done. cbn [orb].
  set (self0 := setStatus (deviceId connectionInfo) CONNECTING self).
  destruct (retryLoopWith_ready_throws listeners connectionInfo net ft e
              (Z.to_nat (maxRetries (options self0) - 1)) 1 self0 Hlc Hlr Hnet
              (Nat.le_refl _)) as (Hx & Hc & He & Hd).
  destruct (retryLoopWith _ _ 1 connectionInfo net self0) as [self1 x];
    cbn [fst snd] in *. subst x.
  cbn [fst snd setStatus devices discoveryStatus connectCalls emitted].
  split; [done|]. split; [apply lookup_insert_eq|].
  split; [done|]. split; [done|]. apply Hd. by left.
Qed.

Lemma ready_listener_exception_is_retried_as_a_failure_witness :
  (handleDeviceWith readyThrows player1 reachable (new retry3)).2
  = Throw (Error (String.append "Could not connect to " (deviceId player1)))
  ∧ discoveryStatus (handleDeviceWith readyThrows player1 reachable (new retry3)).1
      !! deviceId player1 = Some FAILED
  ∧ connectCalls (handleDeviceWith readyThrows player1 reachable (new retry3)).1
    = connectCalls (new retry3)
      ++ replicate (Z.to_nat (maxRetries (options (new retry3)) - 1)) player1
  ∧ emitted (handleDeviceWith readyThrows player1 reachable (new retry3)).1
    = emitted (new retry3)
      ++ announced player1 (Z.to_nat (maxRetries (options (new retry3)) - 1))
  ∧ devices (handleDeviceWith readyThrows player1 reachable (new retry3)).1
      !! address player1
    = Some (tracked player1 emptyFiles).
Proof.
  refine (ready_listener_exception_is_retried_as_a_failure readyThrows player1
            reachable (new retry3) emptyFiles (Error "listener") _ _ _ _ _ _).
  - reflexivity.
  - reflexivity.
  - reflexivity.
  - reflexivity.
  - by vm_compute.
  - intros k. split; reflexivity.
Defined.

Lemma append_inj_r p : ∀ a b, String.append p a = String.append p b → a = b.
Proof.
  induction p as [|c p IH]; intros a b; [done|].
  change (String c (String.append p a) = String c (String.append p b) → a = b).
  intros [= H]. by apply IH.
Qed.

Lemma length_append a b :
  String.length (String.append a b) = (String.length a + String.length b)%nat.
Proof.
  induction a as [|c a IH]; [done|].
  change (S (String.length (String.append a b))
          = S (String.length a + String.length b)).
  by f_equal.
Qed.

(** The address of a device is never its identity string. *)
Lemma address_ne_deviceId device : address device ≠ deviceId device.
Proof.
  intros H. apply (f_equal String.length) in H. unfold deviceId in H.
  rewrite !length_append in H. cbn [String.length] in H. lia.
Qed.

(** X24: the log line of an announcement ends in (NEW) exactly when the
    identity is in no state and the device is not ignored, that is
    exactly when [handleDevice] goes on to connect; with any other line
    [handleDevice] returns at once and changes nothing. *)
Theorem showDiscoveryStatus_new_iff_handleDevice_proceeds :
  ∀ connectionInfo net self,
    (showDiscoveryStatus connectionInfo self = newLine connectionInfo
     ↔ discoveryStatus self !! deviceId connectionInfo = None
       ∧ isIgnored connectionInfo self = false)
    ∧ (showDiscoveryStatus connectionInfo self ≠ newLine connectionInfo →
       handleDevice connectionInfo net self = (self, Return tt))
    ∧ (showDiscoveryStatus connectionInfo self = newLine connectionInfo →
       discoveryStatus (handleDevice connectionInfo net self).1 !! deviceId connectionInfo
       = Some CONNECTED
       ∨ discoveryStatus (handleDevice connectionInfo net self).1
           !! deviceId connectionInfo = Some FAILED).
Proof.
  intros connectionInfo net self.
  assert (Hiff : showDiscoveryStatus connectionInfo self = newLine connectionInfo
                 ↔ discoveryStatus self !! deviceId connectionInfo = None
                   ∧ isIgnored connectionInfo self = false).
  { unfold showDiscoveryStatus, newLine, isConnecting, isConnected, isFailed.
    destruct (isIgnored connectionInfo self).
    - split; [|by intros [_ ?]]. intros Heq. by apply append_inj_r in Heq.
    - destruct (status_cases (discoveryStatus self !! deviceId connectionInfo))
        as [->|[->|[->| ->]]]; repeat case_bool_decide; try done;
        (split; [intros Heq; by apply append_inj_r in Heq | by intros [? _]]). }
  split; [done|]. split.
  - intros Hline. apply handleDevice_skips.
    destruct (status_cases (discoveryStatus self !! deviceId connectionInfo))
      as [Hnone|Hsome]; [|tauto].
    destruct (isIgnored connectionInfo self) eqn:Hign; [tauto|].
    exfalso. apply Hline, Hiff. done.
  - intros Hline. apply Hiff in Hline as [Hnone Hign].
    destruct (handleDevice_proceeds connectionInfo net self Hnone Hign)
      as (_ & _ & [[_ ?]|[_ ?]]); [by left|by right].
Qed.

Lemma showDiscoveryStatus_new_iff_handleDevice_proceeds_witness :
  (showDiscoveryStatus player1 afterFailure = newLine player1
   ↔ discoveryStatus afterFailure !! deviceId player1 = None
     ∧ isIgnored player1 afterFailure = false)
  ∧ (showDiscoveryStatus player1 afterFailure ≠ newLine player1 →
     handleDevice player1 reachable afterFailure = (afterFailure, Return tt))
  ∧ (showDiscoveryStatus player1 afterFailure = newLine player1 →
     discoveryStatus (handleDevice player1 reachable afterFailure).1 !! deviceId player1
     = Some CONNECTED
     ∨ discoveryStatus (handleDevice player1 reachable afterFailure).1
         !! deviceId player1 = Some FAILED).
Proof.
  exact (showDiscoveryStatus_new_iff_handleDevice_proceeds player1 reachable
           afterFailure).
Defined.

(** X25: [isDeviceSeen] asks the discovery-status map for the address
    of the device, while the map is keyed by identity strings; handling
    a device therefore never changes what [isDeviceSeen] answers for it,
    and after a first announcement on a new object the answer is still
    false. *)
Theorem isDeviceSeen_does_not_see_handled_devices :
  ∀ connectionInfo net self,
    isDeviceSeen connectionInfo (handleDevice connectionInfo net self).1
    = isDeviceSeen connectionInfo self
    ∧ isDeviceSeen connectionInfo
        (handleDevice connectionInfo net (new (options self))).1 = false.
Proof.
  assert (Hsame : ∀ connectionInfo net self,
             isDeviceSeen connectionInfo (handleDevice connectionInfo net self).1
             = isDeviceSeen connectionInfo self).
  { intros connectionInfo net self. unfold isDeviceSeen.
    destruct (handleDevice_attempts_local connectionInfo net self) as [Hk _].
    by rewrite Hk by apply address_ne_deviceId. }
  intros connectionInfo net self. split; [apply Hsame|].
  rewrite Hsame. unfold isDeviceSeen. cbn [new discoveryStatus].
  rewrite lookup_empty. by rewrite bool_decide_eq_false_2 by (by intros [? ?]).
Qed.

End OrchestratorMore.
